(** * meme-vault: the asynchronous media processing pipeline

    A shallow embedding of [main.go] (with the tables of [schema.sql])
    and the properties of its upload, dispatch, image, video, query and
    tag-update paths.

    The Go code talks to four things outside itself: the SQLite database
    behind [DB], the file system, two external programs ([tesseract] and
    [ffmpeg]) and the buffered channel [jobQueue].  They are modelled as
    one [World] value threaded through a small state monad; whatever the
    code cannot decide itself (does a command exit with status 0, does a
    statement fail, which rows match a full-text query) is read from an
    [Env] record of oracles. *)

From Stdlib Require Import ZArith String Ascii List Bool Lia.
From Stdlib Require Import DecimalString DecimalZ DecimalPos.
From stdpp Require Import gmap strings list fin_maps sorting.

Local Open Scope string_scope.
Local Open Scope list_scope.
Local Open Scope Z_scope.

(** ** Go standard library functions used by [main.go] *)

Module strings.

(** [strings.HasPrefix(s, prefix)]. *)
Definition HasPrefix (s pre : string) : bool := String.prefix pre s.

(** The UTF-8 encodings of the runes for which [unicode.IsSpace] holds:
    the six ASCII ones, U+0085, U+00A0, U+1680, U+2000..U+200A, U+2028,
    U+2029, U+202F, U+205F and U+3000. *)
Definition spaces : list (list Z) :=
  [ [9]; [10]; [11]; [12]; [13]; [32];
    [194; 133]; [194; 160];
    [225; 154; 128];
    [226; 128; 128]; [226; 128; 129]; [226; 128; 130]; [226; 128; 131];
    [226; 128; 132]; [226; 128; 133]; [226; 128; 134]; [226; 128; 135];
    [226; 128; 136]; [226; 128; 137]; [226; 128; 138];
    [226; 128; 168]; [226; 128; 169]; [226; 128; 175];
    [226; 129; 159];
    [227; 128; 128] ].

Definition bytes (s : string) : list Z :=
  map (fun a => Z.of_N (N_of_ascii a)) (list_ascii_of_string s).

Definition of_bytes (l : list Z) : string :=
  string_of_list_ascii (map (fun z => ascii_of_N (Z.to_N z)) l).

(** [strip p l] is the rest of [l] after the prefix [p], if [l] starts
    with [p]. *)
Fixpoint strip (p l : list Z) : option (list Z) :=
  match p, l with
  | [], _ => Some l
  | x :: p', y :: l' => if Z.eqb x y then strip p' l' else None
  | _ :: _, [] => None
  end.

Fixpoint strip_any (ps : list (list Z)) (l : list Z) : option (list Z) :=
  match ps with
  | [] => None
  | p :: ps' =>
      match strip p l with
      | Some r => Some r
      | None => strip_any ps' l
      end
  end.

(** Drop leading runes taken from [ps].  The fuel is the length of the
    input: every round removes at least one byte. *)
Fixpoint trim_left (ps : list (list Z)) (fuel : nat) (l : list Z) : list Z :=
  match fuel with
  | O => l
  | S fuel' =>
      match strip_any ps l with
      | Some r => trim_left ps fuel' r
      | None => l
      end
  end.

(** [strings.TrimSpace]: leading white space is dropped rune by rune
    from the front, trailing white space from the back (Go decodes the
    last rune, which is the same as matching the reversed encodings on
    the reversed string). *)
Definition TrimSpace (s : string) : string :=
  let l := bytes s in
  let l1 := trim_left spaces (length l) l in
  let l2 := rev (trim_left (map (@rev Z) spaces) (length l1) (rev l1)) in
  of_bytes l2.

End strings.

Module strconv.

(** [strconv.FormatInt(i, 10)]. *)
Definition FormatInt (i : Z) : string := NilZero.string_of_int (Z.to_int i).

Definition maxInt64 : Z := 2 ^ 63 - 1.

(** [strconv.ParseInt(s, 10, 64)]: an optional sign, then one or more
    decimal digits, the value within int64.  [None] stands for the
    returned error (syntax or range). *)
Definition ParseInt (s : string) : option Z :=
  let '(neg, ds) :=
    match s with
    | String "+" r => (false, r)
    | String "-" r => (true, r)
    | _ => (false, s)
    end in
  match ds with
  | EmptyString => None
  | _ =>
      match NilEmpty.uint_of_string ds with
      | None => None
      | Some u =>
          let un := Z.of_uint u in
          if neg then (if un <=? 2 ^ 63 then Some (- un) else None)
          else (if un <? 2 ^ 63 then Some un else None)
      end
  end.

End strconv.

Module filepath.

(** [filepath.Ext]: the suffix beginning at the final dot of the last
    path element, empty when there is none.  [ext_rev] scans the reversed
    path and collects what it has passed, in path order. *)
Fixpoint ext_rev (r : list ascii) (acc : list ascii) : list ascii :=
  match r with
  | [] => []
  | c :: r' =>
      if Ascii.eqb c "/" then []
      else if Ascii.eqb c "." then c :: acc
      else ext_rev r' (c :: acc)
  end.

Definition Ext (path : string) : string :=
  string_of_list_ascii (ext_rev (rev (list_ascii_of_string path)) []).

End filepath.

Module imaging.

Inductive ResampleFilter := NearestNeighbor | Box | Linear | Lanczos.

(** A decoded raster image, as far as the program looks at it: its
    bounds ([src.Bounds().Dx()], [src.Bounds().Dy()]).  The pixels are
    kept only as the filter that resampled them, [None] for an image
    as decoded from a file. *)
Record Image := { Dx : Z; Dy : Z; Resampled : option ResampleFilter }.

Definition empty (filter : ResampleFilter) : Image :=
  {| Dx := 0; Dy := 0; Resampled := Some filter |}.

(** Modelled from the spec: [github.com/disintegration/imaging] is a
    dependency, not under src/.  [Resize(img, w, h, filter)] with one
    of [w], [h] zero keeps the aspect ratio: the missing side is the
    other one scaled and rounded to the nearest integer, at least 1; a
    negative side, both sides zero or an empty source give the empty
    image. *)
Definition Resize (img : Image) (width height : Z) (filter : ResampleFilter) : Image :=
  let srcW := Dx img in
  let srcH := Dy img in
  if (width <? 0) || (height <? 0) then empty filter
  else if (width =? 0) && (height =? 0) then empty filter
  else if (srcW <=? 0) || (srcH <=? 0) then empty filter
  else
    let dstW :=
      if width =? 0 then Z.max 1 ((2 * height * srcW + srcH) / (2 * srcH))
      else width in
    let dstH :=
      if height =? 0 then Z.max 1 ((2 * dstW * srcH + srcW) / (2 * srcW))
      else height in
    {| Dx := dstW; Dy := dstH; Resampled := Some filter |}.

End imaging.

(** ** Data model *)

(** Go's [error], by its message. *)
Definition error : Type := string.

(** A call that returns [(value, err)]. *)
Definition Result (A : Type) : Type := (A + error)%type.

(** A file on disk: its size, and the image it decodes to if it does. *)
Record File := { file_size : Z; file_image : option imaging.Image }.

(** [type ProcessingJob struct]. *)
Record ProcessingJob := { job_ID : Z; job_Path : string; job_MimeType : string }.

(** [type Media struct]: a row of table [media] as the program reads and
    writes it.  [sql.NullString] and [sql.NullInt32] are options.  The
    column [sha256] of [schema.sql] is never read or written.  The
    checked-in [schema.sql] does not declare [processing_status]; every
    statement of [main.go] on [media] names it, and [schema.sql] only
    creates tables that do not exist yet, so the table is taken with the
    columns the statements address. *)
Record Media := {
  ID : Z;
  Path : string;
  Thumb : option string;
  Mime : string;
  Width : option Z;
  Height : option Z;
  SizeBytes : Z;
  Tags : string;
  OcrText : option string;
  ProcessingStatus : string;
  CreatedAt : string
}.

(** A row of the virtual table [media_fts USING fts4(id, ocr_text, tags,
    path)].  The key of the row in the map below is its [rowid]; [id] is
    an ordinary column, NULL unless an INSERT names it. *)
Record FtsRow := {
  fts_id : option Z;
  fts_ocr_text : string;
  fts_tags : string;
  fts_path : string
}.

(** The statements passed to [DB.Exec], with their arguments. *)
Inductive Stmt :=
| InsertMedia (path mime : string) (size_bytes : Z) (tags status : string)
    (* INSERT INTO media (path, mime, size_bytes, tags, processing_status) VALUES (?, ?, ?, ?, ?) *)
| InsertFts (rowid : Z) (ocr_text tags path : string)
    (* INSERT INTO media_fts (rowid, ocr_text, tags, path) VALUES (?, ?, ?, ?) *)
| UpdateMediaTags (tags : string) (id : Z)
    (* UPDATE media SET tags = ? WHERE id = ? *)
| UpdateFtsTags (tags : string) (rowid : Z)
    (* UPDATE media_fts SET tags = ? WHERE rowid = ? *)
| UpdateMediaProcessed (thumb : string) (width height : Z) (ocr_text : string) (id : Z)
    (* UPDATE media SET thumb = ?, width = ?, height = ?, ocr_text = ?,
       processing_status = 'completed' WHERE id = ? *)
| UpdateFtsOcr (ocr_text : string) (id : Z).
    (* UPDATE media_fts SET ocr_text = ? WHERE id = ? *)

(** The statements passed to [DB.Query] and [DB.QueryRow]. *)
Inductive Query :=
| SelectAllMedia
    (* SELECT ... FROM media ORDER BY created_at DESC *)
| SelectFtsMatch (q : string)
    (* SELECT rowid FROM media_fts WHERE media_fts MATCH ? *)
| SelectMediaIn (ids : list Z)
    (* SELECT ... FROM media WHERE id IN (?,...,?) ORDER BY created_at DESC *)
| SelectMediaById (id : Z).
    (* SELECT ... FROM media WHERE id = ? *)

(** An argument of [log.Printf]. *)
Inductive LogArg :=
| AInt (i : Z)
| AStr (s : string)
| AErr (e : error)
| AIds (ids : list Z).

(** What the program does to the outside, in program order. *)
Inductive Event :=
| EvLog (format : string) (args : list LogArg)
| EvExec (s : Stmt)
| EvQuery (q : Query)
| EvCommand (name : string) (args : list string)
| EvOpen (path : string)
| EvSave (path : string)
| EvUpload (path : string)
| EvStat (path : string)
| EvRemove (path : string)
| EvSend (job : ProcessingJob).

Record World := {
  media : gmap Z Media;              (* table media, by id *)
  media_fts : gmap Z FtsRow;         (* table media_fts, by rowid *)
  files : gmap string File;          (* the disk *)
  sent : list ProcessingJob;         (* the sends on jobQueue, oldest first *)
  trace : list Event;                (* everything done, oldest first *)
  tick : nat                         (* advances at each clock / uuid read *)
}.

(** What the program cannot decide itself. *)
Record Env := {
  (* `tesseract <path> stdout -l eng` on the given disk: its standard
     output when [cmd.Run] returns nil, the error otherwise *)
  tesseract : gmap string File -> string -> Result string;
  (* `ffmpeg -i <in> -vframes 1 -q:v 2 <out>` on the given disk: the
     error of [cmd.Run], if any, and the file it writes at <out>, if it
     writes one *)
  ffmpeg : gmap string File -> string -> string -> option error * option File;
  (* the error of [imaging.Save], if any, with the partial file it leaves
     at the path, if it leaves one *)
  imaging_Save_err : imaging.Image -> string -> option (error * option File);
  (* size of the JPEG written for an image *)
  jpeg_size : imaging.Image -> Z;
  (* the error of [os.Remove] on an existing file, if any *)
  os_Remove_err : string -> option error;
  (* the error of [c.SaveUploadedFile], if any *)
  SaveUploadedFile_err : string -> option error;
  (* a statement or query failing in the database (busy, disk full, ...) *)
  DB_Exec_err : Stmt -> option error;
  DB_Query_err : Query -> option error;
  (* the FTS MATCH operator: the rows a query selects *)
  MATCH : string -> FtsRow -> bool;
  CURRENT_TIMESTAMP : nat -> string;
  (* the rowid SQLite ends on when it has to pick one at random (the
     largest int64 is in use), if it finds one before giving up *)
  sqlite_random_rowid : nat -> option Z;
  uuid_New : nat -> string;
  mime_TypeByExtension : string -> string
}.

(** ** The database *)

Module sql.

Definition set_Tags (tags : string) (r : Media) : Media :=
  {| ID := ID r; Path := Path r; Thumb := Thumb r; Mime := Mime r;
     Width := Width r; Height := Height r; SizeBytes := SizeBytes r;
     Tags := tags; OcrText := OcrText r;
     ProcessingStatus := ProcessingStatus r; CreatedAt := CreatedAt r |}.

Definition set_processed (thumb : string) (width height : Z) (ocr_text : string)
    (r : Media) : Media :=
  {| ID := ID r; Path := Path r; Thumb := Some thumb; Mime := Mime r;
     Width := Some width; Height := Some height; SizeBytes := SizeBytes r;
     Tags := Tags r; OcrText := Some ocr_text;
     ProcessingStatus := "completed"; CreatedAt := CreatedAt r |}.

Definition set_fts_tags (tags : string) (r : FtsRow) : FtsRow :=
  {| fts_id := fts_id r; fts_ocr_text := fts_ocr_text r;
     fts_tags := tags; fts_path := fts_path r |}.

Definition set_fts_ocr_text (ocr_text : string) (r : FtsRow) : FtsRow :=
  {| fts_id := fts_id r; fts_ocr_text := ocr_text;
     fts_tags := fts_tags r; fts_path := fts_path r |}.

(** The rowid SQLite gives to a row inserted without one: 1 in an empty
    table, else one more than the largest in use.  When the largest
    int64 is in use SQLite tries positive rowids at random until it hits
    one that is not in use, and gives up with SQLITE_FULL after a number
    of attempts: [pick] is the rowid it ends on, if any; the INSERT goes
    through with it when it is positive and not in use. *)
Definition next_rowid {V : Type} (pick : option Z) (m : gmap Z V) : option Z :=
  match map fst (map_to_list m) with
  | [] => Some 1
  | k :: ks =>
      let top := foldr Z.max k ks in
      if top <? strconv.maxInt64 then Some (top + 1)
      else
        match pick with
        | Some id =>
            if (1 <=? id) && (id <=? strconv.maxInt64) && bool_decide (m !! id = None)
            then Some id else None
        | None => None
        end
  end.

Definition Tables : Type := (gmap Z Media * gmap Z FtsRow)%type.

(** One statement on the two tables; on success the result's
    [LastInsertId] and the new tables.  An UPDATE whose WHERE clause
    selects no row succeeds and changes nothing. *)
Definition exec (now : string) (pick : option Z) (s : Stmt) (db : Tables)
    : Result (Z * Tables) :=
  let '(m, f) := db in
  match s with
  | InsertMedia path mime size_bytes tags status =>
      match next_rowid pick m with
      | None => inr "database or disk is full"
      | Some id =>
          inl (id,
               (<[id := {| ID := id; Path := path; Thumb := None; Mime := mime;
                           Width := None; Height := None; SizeBytes := size_bytes;
                           Tags := tags; OcrText := None;
                           ProcessingStatus := status; CreatedAt := now |}]> m,
                f))
      end
  | InsertFts rowid ocr_text tags path =>
      match f !! rowid with
      | Some _ => inr "constraint failed"
      | None =>
          inl (rowid,
               (m, <[rowid := {| fts_id := None; fts_ocr_text := ocr_text;
                                 fts_tags := tags; fts_path := path |}]> f))
      end
  | UpdateMediaTags tags id =>
      inl (0, (alter (set_Tags tags) id m, f))
  | UpdateFtsTags tags rowid =>
      inl (0, (m, alter (set_fts_tags tags) rowid f))
  | UpdateMediaProcessed thumb width height ocr_text id =>
      inl (0, (alter (set_processed thumb width height ocr_text) id m, f))
  | UpdateFtsOcr ocr_text id =>
      inl (0, (m, (fun r => if decide (fts_id r = Some id)
                            then set_fts_ocr_text ocr_text r else r) <$> f))
  end.

(** [ORDER BY created_at DESC] on a TEXT column: byte-wise comparison. *)
Definition created_desc (a b : Media) : Prop :=
  String.leb (CreatedAt b) (CreatedAt a) = true.

#[global] Instance created_desc_dec (a b : Media) : Decision (created_desc a b).
Proof. unfold created_desc. apply _. Defined.

Definition rows_of {V : Type} (m : gmap Z V) : list V := map snd (map_to_list m).

Definition id_in (ids : list Z) (r : Media) : bool :=
  bool_decide (ID r ∈ ids).

(** The rows of the queries that read [media]. *)
Definition select_media (q : Query) (m : gmap Z Media) : list Media :=
  match q with
  | SelectAllMedia => merge_sort created_desc (rows_of m)
  | SelectMediaIn ids => merge_sort created_desc (List.filter (id_in ids) (rows_of m))
  | SelectMediaById id => match m !! id with Some r => [r] | None => [] end
  | SelectFtsMatch _ => []
  end.

(** The rowids of the rows of [media_fts] selected by a MATCH. *)
Definition select_rowids (p : FtsRow -> bool) (f : gmap Z FtsRow) : list Z :=
  map fst (List.filter (fun kv => p (snd kv)) (map_to_list f)).

End sql.

(** ** The state monad *)

Definition M (A : Type) : Type := World -> A * World.

Definition ret {A : Type} (a : A) : M A := fun w => (a, w).

Definition bind {A B : Type} (m : M A) (k : A -> M B) : M B :=
  fun w => let (a, w') := m w in k a w'.

Notation "x <~ m ;; k" := (bind m (fun x => k))
  (at level 100, m at next level, right associativity).
Notation "m ;; k" := (bind m (fun _ => k))
  (at level 100, right associativity).

Definition emit (e : Event) : M unit := fun w =>
  (tt, {| media := media w; media_fts := media_fts w; files := files w;
          sent := sent w; trace := trace w ++ [e]; tick := tick w |}).

Definition set_tables (db : sql.Tables) : M unit := fun w =>
  (tt, {| media := fst db; media_fts := snd db; files := files w;
          sent := sent w; trace := trace w; tick := tick w |}).

Definition set_files (fs : gmap string File) : M unit := fun w =>
  (tt, {| media := media w; media_fts := media_fts w; files := fs;
          sent := sent w; trace := trace w; tick := tick w |}).

Definition push_sent (j : ProcessingJob) : M unit := fun w =>
  (tt, {| media := media w; media_fts := media_fts w; files := files w;
          sent := sent w ++ [j]; trace := trace w; tick := tick w |}).

(** Read the counter behind the clock and the uuid generator, and advance it. *)
Definition next_tick : M nat := fun w =>
  (tick w, {| media := media w; media_fts := media_fts w; files := files w;
              sent := sent w; trace := trace w; tick := S (tick w) |}).

Definition get {A : Type} (proj : World -> A) : M A := fun w => (proj w, w).

(** ** The program *)

(** What gin hands back to the client. *)
Inductive Response :=
| c_JSON (code : Z) (h : list (string * string))   (* c.JSON(code, gin.H{...}) *)
| c_String (code : Z) (body : string).             (* c.String(code, body) *)

Definition StatusOK : Z := 200.
Definition StatusBadRequest : Z := 400.
Definition StatusInternalServerError : Z := 500.

(** [*multipart.FileHeader]: the name the client gave and the bytes sent;
    [file.Size] is the size of those bytes. *)
Record FileHeader := { Filename : string; Content : File }.

Definition Size (f : FileHeader) : Z := file_size (Content f).

(** The part of the request [uploadHandler] reads: [c.MultipartForm()]
    with [form.File["files"]], and [c.PostForm("tags")]. *)
Record UploadRequest := {
  MultipartForm : Result (list FileHeader);
  PostForm_tags : string
}.

(** What [getMedia] can end with: rows, an error, or a run-time panic. *)
Inductive Rows :=
| Returned (rows : list Media)
| Failed (err : error)
| Panicked.

Section Program.

Variable E : Env.

Definition log_Printf (format : string) (args : list LogArg) : M unit :=
  emit (EvLog format args).

(** [DB.Exec]: the statement runs unless the database refuses it. *)
Definition DB_Exec (s : Stmt) : M (Result Z) :=
  emit (EvExec s) ;;
  match DB_Exec_err E s with
  | Some err => ret (inr err)
  | None =>
      t <~ next_tick ;;
      m <~ get media ;;
      f <~ get media_fts ;;
      match sql.exec (CURRENT_TIMESTAMP E t) (sqlite_random_rowid E t) s (m, f) with
      | inr err => ret (inr err)
      | inl (id, db') => set_tables db' ;; ret (inl id)
      end
  end.

(** [res.LastInsertId()]: the sqlite3 driver never returns an error here. *)
Definition LastInsertId (res : Z) : Result Z := inl res.

(** [DB.Query] on table [media] and the loop over [rows.Next()] with
    [rows.Scan]: a query that [DB.Query] accepts delivers all its rows. *)
Definition DB_Query_media (q : Query) : M (Result (list Media)) :=
  emit (EvQuery q) ;;
  match DB_Query_err E q with
  | Some err => ret (inr err)
  | None => m <~ get media ;; ret (inl (sql.select_media q m))
  end.

(** [DB.Query] of the MATCH on [media_fts] and the loop over
    [ftsRows.Next()] that collects the rowids. *)
Definition DB_Query_rowids (query : string) : M (Result (list Z)) :=
  emit (EvQuery (SelectFtsMatch query)) ;;
  match DB_Query_err E (SelectFtsMatch query) with
  | Some err => ret (inr err)
  | None => f <~ get media_fts ;; ret (inl (sql.select_rowids (MATCH E query) f))
  end.

(** What [imaging.Open] finds at a path of the given disk. *)
Definition open_image (fs : gmap string File) (path : string) : Result imaging.Image :=
  match fs !! path with
  | None => inr ("open " +:+ path +:+ ": no such file or directory")
  | Some f =>
      match file_image f with
      | None => inr "image: unknown format"
      | Some img => inl img
      end
  end.

(** [imaging.Open]. *)
Definition imaging_Open (path : string) : M (Result imaging.Image) :=
  emit (EvOpen path) ;;
  fs <~ get files ;;
  ret (open_image fs path).

(** [imaging.Save]: on success the encoded image is at [path]; on
    failure the oracle says what, if anything, was left there. *)
Definition imaging_Save (img : imaging.Image) (path : string) : M (option error) :=
  emit (EvSave path) ;;
  fs <~ get files ;;
  match imaging_Save_err E img path with
  | Some (err, None) => ret (Some err)
  | Some (err, Some partial) => set_files (<[path := partial]> fs) ;; ret (Some err)
  | None =>
      set_files (<[path := {| file_size := jpeg_size E img;
                              file_image := Some img |}]> fs) ;;
      ret None
  end.

(** [os.Remove]. *)
Definition os_Remove (path : string) : M (option error) :=
  emit (EvRemove path) ;;
  fs <~ get files ;;
  match fs !! path with
  | None => ret (Some ("remove " +:+ path +:+ ": no such file or directory"))
  | Some _ =>
      match os_Remove_err E path with
      | Some err => ret (Some err)
      | None => set_files (delete path fs) ;; ret None
      end
  end.

(** [jobQueue <- job].  The send is recorded; how the channel buffers
    it, and when it lets the sender go on, is [Module jobQueue]. *)
Definition jobQueue_send (job : ProcessingJob) : M unit :=
  emit (EvSend job) ;; push_sent job.

Definition extractOCR (imagePath : string) : M string :=
  emit (EvCommand "tesseract" [imagePath; "stdout"; "-l"; "eng"]) ;;
  fs <~ get files ;;
  match tesseract E fs imagePath with
  | inr err =>
      log_Printf "OCR failed for %s: %v" [AStr imagePath; AErr err] ;;
      ret ""
  | inl out => ret (strings.TrimSpace out)
  end.

Definition thumbPath (id : Z) : string :=
  "static/" +:+ strconv.FormatInt id +:+ "_thumb.jpg".

Definition framePath (id : Z) : string :=
  "static/" +:+ strconv.FormatInt id +:+ "_frame.jpg".

Definition processImage (id : Z) (path : string) : M unit :=
  r <~ imaging_Open path ;;
  match r with
  | inr err => log_Printf "Failed to open image %s: %v" [AStr path; AErr err]
  | inl src =>
      (* Generate thumbnail *)
      let thumb := imaging.Resize src 200 0 imaging.Lanczos in
      e <~ imaging_Save thumb (thumbPath id) ;;
      match e with
      | Some err =>
          log_Printf "Failed to save thumbnail %s: %v" [AStr (thumbPath id); AErr err]
      | None =>
          (* Get dimensions *)
          let width := imaging.Dx src in
          let height := imaging.Dy src in
          (* OCR text extraction *)
          ocrText <~ extractOCR path ;;
          (* Update DB *)
          r1 <~ DB_Exec (UpdateMediaProcessed (thumbPath id) width height ocrText id) ;;
          match r1 with
          | inr err => log_Printf "Failed to update DB for %s: %v" [AInt id; AErr err]
          | inl _ => ret tt
          end ;;
          (* Update FTS *)
          r2 <~ DB_Exec (UpdateFtsOcr ocrText id) ;;
          match r2 with
          | inr err => log_Printf "Failed to update FTS for %s: %v" [AInt id; AErr err]
          | inl _ => ret tt
          end
      end
  end.

Definition processVideoOrGif (id : Z) (path : string) : M unit :=
  (* Extract first frame *)
  emit (EvCommand "ffmpeg" ["-i"; path; "-vframes"; "1"; "-q:v"; "2"; framePath id]) ;;
  fs <~ get files ;;
  let '(err, out) := ffmpeg E fs path (framePath id) in
  match out with
  | Some frame => set_files (<[framePath id := frame]> fs)
  | None => ret tt
  end ;;
  match err with
  | Some err => log_Printf "Failed to extract frame for %s: %v" [AStr path; AErr err]
  | None =>
      (* Process as image *)
      processImage id (framePath id) ;;
      (* Clean up frame file *)
      _ <~ os_Remove (framePath id) ;;
      ret tt
  end.

Definition processMedia (id : Z) (path mimeType : string) : M unit :=
  log_Printf "Starting media processing for ID %d, path: %s, type: %s"
    [AInt id; AStr path; AStr mimeType] ;;
  (if strings.HasPrefix mimeType "image/" then
     processImage id path
   else if strings.HasPrefix mimeType "video/" || String.eqb mimeType "image/gif" then
     processVideoOrGif id path
   else
     log_Printf "Unsupported media type for processing: %s" [AStr mimeType]) ;;
  (* deferred *)
  log_Printf "Completed media processing for ID %d" [AInt id].

(** One round of a worker's [for job := range jobQueue]. *)
Definition worker (workerID : Z) (job : ProcessingJob) : M unit :=
  log_Printf "Worker %d processing job for media ID %d" [AInt workerID; AInt (job_ID job)] ;;
  processMedia (job_ID job) (job_Path job) (job_MimeType job).

(** [allowedTypes] of [uploadHandler]. *)
Definition allowedTypes : gmap string bool :=
  list_to_map
    [("image/jpeg", true); ("image/png", true); ("image/gif", true);
     ("image/webp", true); ("video/mp4", true); ("video/webm", true)].

Definition maxSize : Z := Z.shiftl 10 20.

Definition mimeOf (ext : string) : string :=
  let mimeType := mime_TypeByExtension E ext in
  if String.eqb mimeType "" then "application/octet-stream" else mimeType.

(** The first loop of [uploadHandler]: the response that ends the
    request, if a file is refused. *)
Fixpoint validate (fhs : list FileHeader) : option Response :=
  match fhs with
  | [] => None
  | file :: rest =>
      let mimeType := mimeOf (filepath.Ext (Filename file)) in
      if negb (default false (allowedTypes !! mimeType)) then
        Some (c_JSON StatusBadRequest [("error", "Unsupported file type: " +:+ mimeType)])
      else if Size file >? maxSize then
        Some (c_JSON StatusBadRequest [("error", "File too large (max 10MB)")])
      else validate rest
  end.

(** [c.SaveUploadedFile]. *)
Definition SaveUploadedFile (file : FileHeader) (path : string) : M (option error) :=
  emit (EvUpload path) ;;
  match SaveUploadedFile_err E path with
  | Some err => ret (Some err)
  | None =>
      fs <~ get files ;;
      set_files (<[path := Content file]> fs) ;;
      ret None
  end.

(** [os.Stat], as far as [fileInfo.Size()]. *)
Definition os_Stat (path : string) : M (Result Z) :=
  emit (EvStat path) ;;
  fs <~ get files ;;
  match fs !! path with
  | None => ret (inr ("stat " +:+ path +:+ ": no such file or directory"))
  | Some f => ret (inl (file_size f))
  end.

(** The body of the second loop of [uploadHandler] from the INSERT on
    (lines 122-144): [Some] response when the handler returns from
    inside the loop. *)
Definition ingest (path mimeType : string) (sizeBytes : Z) (tags : string)
    : M (option Response) :=
  r <~ DB_Exec (InsertMedia path mimeType sizeBytes tags "processing") ;;
  match r with
  | inr err => ret (Some (c_JSON StatusInternalServerError [("error", err)]))
  | inl res =>
      match LastInsertId res with
      | inr err => ret (Some (c_JSON StatusInternalServerError [("error", err)]))
      | inl id =>
          (* Insert into FTS *)
          r1 <~ DB_Exec (InsertFts id "" tags path) ;;
          match r1 with
          | inr err => log_Printf "Failed to insert FTS: %v" [AErr err]
          | inl _ => ret tt
          end ;;
          (* Queue media processing for background execution *)
          jobQueue_send {| job_ID := id; job_Path := path; job_MimeType := mimeType |} ;;
          ret None
      end
  end.

(** The second loop of [uploadHandler]. *)
Fixpoint uploadFiles (fhs : list FileHeader) (tags : string) : M Response :=
  match fhs with
  | [] => ret (c_JSON StatusOK [("message", "uploaded")])
  | file :: rest =>
      let ext := filepath.Ext (Filename file) in
      t <~ next_tick ;;
      let path := "storage/" +:+ uuid_New E t +:+ ext in
      e <~ SaveUploadedFile file path ;;
      match e with
      | Some err => ret (c_JSON StatusInternalServerError [("error", err)])
      | None =>
          let mimeType := mimeOf ext in
          (* Get file size *)
          st <~ os_Stat path ;;
          match st with
          | inr err => ret (c_JSON StatusInternalServerError [("error", err)])
          | inl sizeBytes =>
              out <~ ingest path mimeType sizeBytes tags ;;
              match out with
              | Some resp => ret resp
              | None => uploadFiles rest tags
              end
          end
      end
  end.

Definition uploadHandler (c : UploadRequest) : M Response :=
  match MultipartForm c with
  | inr err => ret (c_JSON StatusBadRequest [("error", err)])
  | inl fhs =>
      let tags := PostForm_tags c in
      if (length fhs =? 0)%nat then
        ret (c_JSON StatusBadRequest [("error", "No files selected")])
      else
        match validate fhs with
        | Some resp => ret resp
        | None => uploadFiles fhs tags
        end
  end.

(** [getMedia].  In the branch of a non-empty query the error of the
    second [DB.Query] is assigned to the [err] declared by [:=] inside
    that branch; the [err] tested after the branch is the outer one,
    still nil, and [rows] is nil, so [rows.Next()] is called on a nil
    pointer. *)
Definition getMedia (query : string) : M Rows :=
  if String.eqb query "" then
    r <~ DB_Query_media SelectAllMedia ;;
    match r with
    | inr err => ret (Failed err)
    | inl media =>
        log_Printf "Returning %d media items" [AInt (Z.of_nat (length media))] ;;
        ret (Returned media)
    end
  else
    log_Printf "FTS query: %s" [AStr query] ;;
    r <~ DB_Query_rowids query ;;
    match r with
    | inr err =>
        log_Printf "FTS query error: %v" [AErr err] ;;
        ret (Failed err)
    | inl ids =>
        log_Printf "Matching ids: %v" [AIds ids] ;;
        if (length ids =? 0)%nat then ret (Returned [])
        else
          r1 <~ DB_Query_media (SelectMediaIn ids) ;;
          match r1 with
          | inr _ => ret Panicked
          | inl media =>
              log_Printf "Returning %d media items" [AInt (Z.of_nat (length media))] ;;
              ret (Returned media)
          end
    end.

Definition updateTagsHandler (idStr tags : string) : M Response :=
  match strconv.ParseInt idStr with
  | None => ret (c_JSON StatusBadRequest [("error", "Invalid id")])
  | Some id =>
      log_Printf "Updating tags for id: %d to: %s" [AInt id; AStr tags] ;;
      r <~ DB_Exec (UpdateMediaTags tags id) ;;
      match r with
      | inr err =>
          log_Printf "Failed to update media tags: %v" [AErr err] ;;
          ret (c_JSON StatusInternalServerError [("error", err)])
      | inl _ =>
          (* Update FTS *)
          r1 <~ DB_Exec (UpdateFtsTags tags id) ;;
          match r1 with
          | inr err => log_Printf "Failed to update FTS tags for %d: %v" [AInt id; AErr err]
          | inl _ => ret tt
          end ;;
          ret (c_String StatusOK tags)
      end
  end.

End Program.

(** ** The job queue *)

(** [var jobQueue = make(chan ProcessingJob, 100)], with the handlers that
    send on it and the workers that range over it.  A Go channel with a
    buffer keeps the values sent in a queue of at most [capacity]
    elements; a sender that finds the buffer full is parked, in order of
    arrival, with the value it wants to send; a receiver takes the head
    of the buffer and, if a sender is parked, that sender's value enters
    the buffer at the tail and the sender goes on. *)
Module jobQueue.

Definition capacity : nat := 100.

(** [go startProcessingWorkers(3)]: the workers have the ids 0, 1, 2. *)
Definition numWorkers : nat := 3.

Record Chan := {
  buf : list ProcessingJob;            (* buffered values, head first *)
  sendq : list (nat * ProcessingJob)   (* the parked senders, each with its value, oldest first *)
}.

Definition make : Chan := {| buf := []; sendq := [] |}.

(** [jobQueue <- job] by goroutine [g]; [true] when the sender goes on,
    [false] when it is parked. *)
Definition send (g : nat) (job : ProcessingJob) (c : Chan) : bool * Chan :=
  if (length (buf c) <? capacity)%nat
  then (true, {| buf := buf c ++ [job]; sendq := sendq c |})
  else (false, {| buf := buf c; sendq := sendq c ++ [(g, job)] |}).

(** [job := <-jobQueue] of the [range] loop: the job received, the sender
    that is let go, and the channel afterwards; [None] when the receiver
    has to wait. *)
Definition recv (c : Chan) : option (ProcessingJob * option nat * Chan) :=
  match buf c with
  | [] => None
  | job :: rest =>
      Some
        match sendq c with
        | [] => (job, None, {| buf := rest; sendq := [] |})
        | (g, parked) :: q => (job, Some g, {| buf := rest ++ [parked]; sendq := q |})
        end
  end.

(** Where the goroutine of one POST /upload stands. *)
Inductive Handler :=
| Running (files : list FileHeader) (tags : string)
    (* at the head of the second loop, with these files to go *)
| Sending (job : ProcessingJob) (files : list FileHeader) (tags : string)
    (* parked in [jobQueue <- job]; these files come after it *)
| Answered (resp : Response).

(** The moves of the goroutines: a request arrives and its handler runs
    down to the second loop; handler [h] runs one round of that loop, as
    far as its send lets it; worker [workerID] receives a job and
    processes it. *)
Inductive Op :=
| Request (c : UploadRequest)
| Advance (h : nat)
| Receive (workerID : nat).

(** The server: the world the program acts on, the channel, the
    handlers in the order their requests arrived, and the jobs the
    workers received, in the order of receipt. *)
Record Sys := {
  world : World;
  chan : Chan;
  handlers : list Handler;
  delivered : list (nat * ProcessingJob)
}.

Definition init (w0 : World) : Sys :=
  {| world := w0; chan := make; handlers := []; delivered := [] |}.

Section Server.

Variable E : Env.

(** [uploadHandler] down to its second loop (lines 67-99). *)
Definition accept (c : UploadRequest) : Handler :=
  match MultipartForm c with
  | inr err => Answered (c_JSON StatusBadRequest [("error", err)])
  | inl fhs =>
      let tags := PostForm_tags c in
      if (length fhs =? 0)%nat then
        Answered (c_JSON StatusBadRequest [("error", "No files selected")])
      else
        match validate E fhs with
        | Some resp => Answered resp
        | None => Running fhs tags
        end
  end.

(** One round of the second loop of [uploadHandler] down to the send
    (lines 102-139): the response, when the handler returns from inside
    the loop, or the job it is about to send. *)
Definition upload_to_send (file : FileHeader) (tags : string)
    : M (Response + ProcessingJob) :=
  let ext := filepath.Ext (Filename file) in
  t <~ next_tick ;;
  let path := "storage/" +:+ uuid_New E t +:+ ext in
  e <~ SaveUploadedFile E file path ;;
  match e with
  | Some err => ret (inl (c_JSON StatusInternalServerError [("error", err)]))
  | None =>
      let mimeType := mimeOf E ext in
      st <~ os_Stat path ;;
      match st with
      | inr err => ret (inl (c_JSON StatusInternalServerError [("error", err)]))
      | inl sizeBytes =>
          r <~ DB_Exec E (InsertMedia path mimeType sizeBytes tags "processing") ;;
          match r with
          | inr err => ret (inl (c_JSON StatusInternalServerError [("error", err)]))
          | inl res =>
              match LastInsertId res with
              | inr err => ret (inl (c_JSON StatusInternalServerError [("error", err)]))
              | inl id =>
                  r1 <~ DB_Exec E (InsertFts id "" tags path) ;;
                  match r1 with
                  | inr err => log_Printf "Failed to insert FTS: %v" [AErr err]
                  | inl _ => ret tt
                  end ;;
                  ret (inr {| job_ID := id; job_Path := path; job_MimeType := mimeType |})
              end
          end
      end
  end.

(** Handler [h] moves to [g], leaving the world [w] and the channel [c]. *)
Definition set_handler (h : nat) (g : Handler) (s : Sys) (w : World) (c : Chan) : Sys :=
  {| world := w; chan := c; handlers := <[h := g]> (handlers s);
     delivered := delivered s |}.

(** One move.  A round of a handler runs from the head of the loop to
    the send, where the send statement is recorded ([jobQueue_send]) and
    the channel decides whether the handler goes on; a handler that is
    parked, or has answered, does not move.  A worker that receives takes
    its round of the [range] loop, log line and [processMedia], in the
    same move; with an empty buffer it waits. *)
Definition step (s : Sys) (op : Op) : Sys :=
  match op with
  | Request c =>
      {| world := world s; chan := chan s; handlers := handlers s ++ [accept c];
         delivered := delivered s |}
  | Advance h =>
      match handlers s !! h with
      | Some (Running [] tags) =>
          set_handler h (Answered (c_JSON StatusOK [("message", "uploaded")])) s
            (world s) (chan s)
      | Some (Running (file :: rest) tags) =>
          match upload_to_send file tags (world s) with
          | (inl resp, w1) => set_handler h (Answered resp) s w1 (chan s)
          | (inr job, w1) =>
              let w2 := snd (jobQueue_send job w1) in
              match send h job (chan s) with
              | (true, c') => set_handler h (Running rest tags) s w2 c'
              | (false, c') => set_handler h (Sending job rest tags) s w2 c'
              end
          end
      | _ => s     (* parked in its send, or answered, or no such handler *)
      end
  | Receive workerID =>
      if (workerID <? numWorkers)%nat then
        match recv (chan s) with
        | None => s     (* the worker waits *)
        | Some (job, released, c') =>
            {| world := snd (worker E (Z.of_nat workerID) job (world s));
               chan := c';
               handlers :=
                 match released with
                 | Some g =>
                     match handlers s !! g with
                     | Some (Sending _ rest tags) => <[g := Running rest tags]> (handlers s)
                     | _ => handlers s
                     end
                 | None => handlers s
                 end;
               delivered := delivered s ++ [(workerID, job)] |}
        end
      else s
  end.

(** The server after a sequence of moves from the world [w0]. *)
Definition run (w0 : World) (ops : list Op) : Sys := foldl step (init w0) ops.

End Server.

(** What holds of the server at every moment: the buffer is within its
    capacity; senders are parked only while it is full; the jobs whose
    send began are, in order, those delivered, those buffered and those
    of the parked senders; and the parked senders are the handlers that
    stand in their send, each once. *)
Definition queue_inv (w0 : World) (s : Sys) : Prop :=
  (length (buf (chan s)) <= capacity)%nat /\
  (sendq (chan s) <> [] -> length (buf (chan s)) = capacity) /\
  sent (world s) =
    sent w0 ++ map snd (delivered s) ++ buf (chan s) ++ map snd (sendq (chan s)) /\
  NoDup (map fst (sendq (chan s))) /\
  (forall g job, (g, job) ∈ sendq (chan s) ->
     exists rest tags, handlers s !! g = Some (Sending job rest tags)) /\
  (forall g job rest tags, handlers s !! g = Some (Sending job rest tags) ->
     (g, job) ∈ sendq (chan s)).

(** Whether a move is a receive. *)
Definition is_receive (op : Op) : bool :=
  match op with Receive _ => true | _ => false end.

End jobQueue.

(** ** Sample runs *)

(** A small environment and a few requests, to run the program on. *)
Module Samples.

Definition decoded (w h : Z) : imaging.Image :=
  {| imaging.Dx := w; imaging.Dy := h; imaging.Resampled := None |}.

Definition picture : File := {| file_size := 120000; file_image := Some (decoded 300 200) |}.
Definition clip : File := {| file_size := 900000; file_image := None |}.
Definition frame : File := {| file_size := 50000; file_image := Some (decoded 640 360) |}.

Definition newline : string := String "010" "".

Definition extension_table (ext : string) : string :=
  if String.eqb ext ".png" then "image/png"
  else if String.eqb ext ".gif" then "image/gif"
  else if String.eqb ext ".mp4" then "video/mp4"
  else if String.eqb ext ".txt" then "text/plain; charset=utf-8"
  else "".

(** Everything works: tesseract reads "hello world" off any file that
    exists, ffmpeg writes [frame] for any input that exists, a query
    matches the rows whose tags or text it equals. *)
Definition env : Env :=
  {| tesseract := fun fs path =>
       match fs !! path with
       | Some _ => inl ("hello world" +:+ newline)
       | None => inr "exit status 1"
       end;
     ffmpeg := fun fs input _ =>
       match fs !! input with
       | Some _ => (None, Some frame)
       | None => (Some "exit status 1", None)
       end;
     imaging_Save_err := fun _ _ => None;
     jpeg_size := fun _ => 4096;
     os_Remove_err := fun _ => None;
     SaveUploadedFile_err := fun _ => None;
     DB_Exec_err := fun _ => None;
     DB_Query_err := fun _ => None;
     MATCH := fun q r => String.eqb q (fts_tags r) || String.eqb q (fts_ocr_text r);
     CURRENT_TIMESTAMP := fun t => "2025-06-01 12:00:0" +:+ strconv.FormatInt (Z.of_nat t);
     sqlite_random_rowid := fun _ => Some 759303819177684512;
     uuid_New := fun t => "f" +:+ strconv.FormatInt (Z.of_nat t);
     mime_TypeByExtension := extension_table |}.

(** [env], except that [os.Remove] is refused. *)
Definition env_remove_denied : Env :=
  {| tesseract := tesseract env; ffmpeg := ffmpeg env;
     imaging_Save_err := imaging_Save_err env; jpeg_size := jpeg_size env;
     os_Remove_err := fun _ => Some "permission denied";
     SaveUploadedFile_err := SaveUploadedFile_err env;
     DB_Exec_err := DB_Exec_err env; DB_Query_err := DB_Query_err env;
     MATCH := MATCH env; CURRENT_TIMESTAMP := CURRENT_TIMESTAMP env;
     sqlite_random_rowid := sqlite_random_rowid env;
     uuid_New := uuid_New env; mime_TypeByExtension := mime_TypeByExtension env |}.

(** [env], except that the tesseract binary is missing. *)
Definition env_no_tesseract : Env :=
  {| tesseract := fun _ _ => inr "exec: tesseract: executable file not found in $PATH";
     ffmpeg := ffmpeg env;
     imaging_Save_err := imaging_Save_err env; jpeg_size := jpeg_size env;
     os_Remove_err := os_Remove_err env;
     SaveUploadedFile_err := SaveUploadedFile_err env;
     DB_Exec_err := DB_Exec_err env; DB_Query_err := DB_Query_err env;
     MATCH := MATCH env; CURRENT_TIMESTAMP := CURRENT_TIMESTAMP env;
     sqlite_random_rowid := sqlite_random_rowid env;
     uuid_New := uuid_New env; mime_TypeByExtension := mime_TypeByExtension env |}.

(** [env], except that the database refuses every INSERT into [media]. *)
Definition env_insert_refused : Env :=
  {| tesseract := tesseract env; ffmpeg := ffmpeg env;
     imaging_Save_err := imaging_Save_err env; jpeg_size := jpeg_size env;
     os_Remove_err := os_Remove_err env;
     SaveUploadedFile_err := SaveUploadedFile_err env;
     DB_Exec_err := fun s =>
       match s with
       | InsertMedia _ _ _ _ _ => Some "database is locked"
       | _ => None
       end;
     DB_Query_err := DB_Query_err env;
     MATCH := MATCH env; CURRENT_TIMESTAMP := CURRENT_TIMESTAMP env;
     sqlite_random_rowid := sqlite_random_rowid env;
     uuid_New := uuid_New env; mime_TypeByExtension := mime_TypeByExtension env |}.

(** What a killed ffmpeg leaves behind. *)
Definition partial_frame : File := {| file_size := 512; file_image := None |}.

(** [env], except that ffmpeg fails after it has begun to write its output. *)
Definition env_ffmpeg_killed : Env :=
  {| tesseract := tesseract env;
     ffmpeg := fun _ _ _ => (Some "signal: killed", Some partial_frame);
     imaging_Save_err := imaging_Save_err env; jpeg_size := jpeg_size env;
     os_Remove_err := os_Remove_err env;
     SaveUploadedFile_err := SaveUploadedFile_err env;
     DB_Exec_err := DB_Exec_err env; DB_Query_err := DB_Query_err env;
     MATCH := MATCH env; CURRENT_TIMESTAMP := CURRENT_TIMESTAMP env;
     sqlite_random_rowid := sqlite_random_rowid env;
     uuid_New := uuid_New env; mime_TypeByExtension := mime_TypeByExtension env |}.

Definition empty : World :=
  {| media := ∅; media_fts := ∅; files := ∅; sent := []; trace := []; tick := 0 |}.

(** A record under the largest id there is. *)
Definition oldest : Media :=
  {| ID := strconv.maxInt64; Path := "storage/old.png"; Thumb := None;
     Mime := "image/png"; Width := None; Height := None; SizeBytes := 7;
     Tags := ""; OcrText := None; ProcessingStatus := "processing";
     CreatedAt := "2025-05-31 08:00:00" |}.

Definition vault_at_top : World :=
  {| media := {[strconv.maxInt64 := oldest]}; media_fts := ∅; files := ∅;
     sent := []; trace := []; tick := 0 |}.

Definition upload (name : string) (f : File) (tags : string) : UploadRequest :=
  {| MultipartForm := inl [{| Filename := name; Content := f |}];
     PostForm_tags := tags |}.

(** The world after one upload into the empty vault. *)
Definition after_upload (E : Env) (name : string) (f : File) (tags : string) : World :=
  snd (uploadHandler E (upload name f tags) empty).

(** The world after a worker has then taken the first job sent. *)
Definition after_job (E : Env) (name : string) (f : File) (tags : string) : World :=
  let w := after_upload E name f tags in
  match sent w with
  | [] => w
  | job :: _ => snd (worker E 0 job w)
  end.

Definition cat_png : FileHeader := {| Filename := "cat.png"; Content := Samples.picture |}.

(** A request with [n] pictures. *)
Definition burst (n : nat) : UploadRequest :=
  {| MultipartForm := inl (replicate n cat_png); PostForm_tags := "cats" |}.

(** Two requests of 51 pictures each arrive, and their handlers take
    turns for 50 rounds each while no worker receives. *)
Definition two_bursts : list jobQueue.Op :=
  jobQueue.Request (burst 51) :: jobQueue.Request (burst 51) ::
  concat (replicate 50 [jobQueue.Advance 0; jobQueue.Advance 1]).

(** The job of the [n]-th insert when [t] ticks have passed. *)
Definition job_at (n : Z) (t : Z) : ProcessingJob :=
  {| job_ID := n; job_Path := "storage/f" +:+ strconv.FormatInt t +:+ ".png";
     job_MimeType := "image/png" |}.

(** The two handlers have then both reached their 51st send. *)
Definition both_parked : list jobQueue.Op :=
  two_bursts ++ [jobQueue.Advance 0; jobQueue.Advance 1].

(** [env] with other answers of the database. *)
Definition with_db (x : Stmt -> option error) (q : Query -> option error) : Env :=
  {| tesseract := tesseract env; ffmpeg := ffmpeg env;
     imaging_Save_err := imaging_Save_err env; jpeg_size := jpeg_size env;
     os_Remove_err := os_Remove_err env;
     SaveUploadedFile_err := SaveUploadedFile_err env;
     DB_Exec_err := x; DB_Query_err := q;
     MATCH := MATCH env; CURRENT_TIMESTAMP := CURRENT_TIMESTAMP env;
     sqlite_random_rowid := sqlite_random_rowid env;
     uuid_New := uuid_New env;
     mime_TypeByExtension := mime_TypeByExtension env |}.

(** The index refuses the UPDATE of its tags. *)
Definition env_index_refusing : Env :=
  with_db (fun s => match s with
                    | UpdateFtsTags _ _ => Some "database is locked"
                    | _ => None
                    end)
          (DB_Query_err env).

(** Table [media] refuses the UPDATE of its tags. *)
Definition env_tags_refused : Env :=
  with_db (fun s => match s with
                    | UpdateMediaTags _ _ => Some "database is locked"
                    | _ => None
                    end)
          (DB_Query_err env).

(** The query by ids fails. *)
Definition env_second_query_fails : Env :=
  with_db (DB_Exec_err env)
          (fun q => match q with
                    | SelectMediaIn _ => Some "too many SQL variables"
                    | _ => None
                    end).

(** 20 MB of video. *)
Definition oversized : File := {| file_size := 20000000; file_image := None |}.

End Samples.

(** ** Vocabulary of the properties *)

Arguments thumbPath : simpl never.
Arguments framePath : simpl never.
Arguments strings.TrimSpace : simpl never.
Arguments strings.HasPrefix : simpl never.
Arguments imaging.Resize : simpl never.

(** The thumbnail [processImage] makes of a decoded image. *)
Definition thumbnail (src : imaging.Image) : imaging.Image :=
  imaging.Resize src 200 0 imaging.Lanczos.

(** The file [imaging.Save] writes for an image. *)
Definition jpeg (E : Env) (img : imaging.Image) : File :=
  {| file_size := jpeg_size E img; file_image := Some img |}.

(** An image job that does not get past its first two steps: the file at
    [path] does not decode, or the thumbnail cannot be saved. *)
Definition image_job_aborts (E : Env) (id : Z) (path : string) (w : World) : Prop :=
  match open_image (files w) path with
  | inr _ => True
  | inl src => is_Some (imaging_Save_err E (thumbnail src) (thumbPath id))
  end.

(** An image job that reaches the OCR step, with the image it decoded. *)
Definition reaches_ocr (E : Env) (id : Z) (path : string) (w : World)
    (src : imaging.Image) : Prop :=
  open_image (files w) path = inl src /\
  imaging_Save_err E (thumbnail src) (thumbPath id) = None.

(** What [extractOCR] returns for a path on a disk. *)
Definition ocr_text_of (E : Env) (fs : gmap string File) (imagePath : string) : string :=
  match tesseract E fs imagePath with
  | inl out => strings.TrimSpace out
  | inr _ => ""
  end.

(** The events that touch the database. *)
Definition is_store_access (e : Event) : bool :=
  match e with
  | EvExec _ | EvQuery _ => true
  | _ => false
  end.

(** The attempts to remove a file. *)
Definition is_removal (e : Event) : bool :=
  match e with
  | EvRemove _ => true
  | _ => false
  end.

(** The events that start an external program. *)
Definition is_command (e : Event) : bool :=
  match e with
  | EvCommand _ _ => true
  | _ => false
  end.

(** The events that read or write table [media]. *)
Definition touches_media (e : Event) : bool :=
  match e with
  | EvExec (InsertMedia _ _ _ _ _) | EvExec (UpdateMediaTags _ _)
  | EvExec (UpdateMediaProcessed _ _ _ _ _) => true
  | EvQuery SelectAllMedia | EvQuery (SelectMediaIn _) | EvQuery (SelectMediaById _) => true
  | _ => false
  end.

(** What happened between two worlds of one run. *)
Definition events_since (w w' : World) : list Event :=
  drop (length (trace w)) (trace w').

(** The UPDATE of [media] that [processImage] issues for a job that
    reaches the OCR step. *)
Definition record_update (E : Env) (id : Z) (path : string) (w : World)
    (src : imaging.Image) : Stmt :=
  let fs := <[thumbPath id := jpeg E (thumbnail src)]> (files w) in
  UpdateMediaProcessed (thumbPath id) (imaging.Dx src) (imaging.Dy src)
    (ocr_text_of E fs path) id.

(** The world in which [processVideoOrGif], called by [processMedia],
    goes on after ffmpeg: the job's first log line and the command are
    in the trace, and what ffmpeg wrote is at the frame path. *)
Definition frame_extracted (E : Env) (id : Z) (path mimeType : string) (w : World) : World :=
  {| media := media w; media_fts := media_fts w;
     files := match snd (ffmpeg E (files w) path (framePath id)) with
              | Some frame => <[framePath id := frame]> (files w)
              | None => files w
              end;
     sent := sent w;
     trace := trace w ++
       [EvLog "Starting media processing for ID %d, path: %s, type: %s"
          [AInt id; AStr path; AStr mimeType];
        EvCommand "ffmpeg" ["-i"; path; "-vframes"; "1"; "-q:v"; "2"; framePath id]];
     tick := tick w |}.

(** A record as ingestion creates it for a job: the job's id, path and
    MIME type, status [processing], nothing derived yet. *)
Definition fresh_record (j : ProcessingJob) (r : Media) : Prop :=
  ID r = job_ID j /\ Path r = job_Path j /\ Mime r = job_MimeType j /\
  ProcessingStatus r = "processing" /\
  Thumb r = None /\ Width r = None /\ Height r = None /\ OcrText r = None.

(** Every row of the index belongs to a record: the rowids of
    [media_fts] are ids of [media]. *)
Definition index_within_records (w : World) : Prop :=
  dom (media_fts w) ⊆ dom (media w).

(** The rows of the index as [uploadHandler] writes them: column [id]
    is never filled. *)
Definition index_ids_null (w : World) : Prop :=
  forall rowid r, media_fts w !! rowid = Some r -> fts_id r = None.

(** The two together. *)
Definition index_inv (w : World) : Prop :=
  index_within_records w /\ index_ids_null w.

(** A step of the program keeps a property of the world. *)
Definition preserves {A : Type} (P : World -> Prop) (m : M A) : Prop :=
  forall w, P w -> P (snd (m w)).

(** The worlds the program gets to from an empty vault: requests are
    served and workers take jobs that were sent. *)
Inductive reachable (E : Env) : World -> Prop :=
| reach_start fs :
    reachable E {| media := ∅; media_fts := ∅; files := fs;
                   sent := []; trace := []; tick := 0 |}
| reach_upload w c :
    reachable E w -> reachable E (snd (uploadHandler E c w))
| reach_worker w workerID job :
    reachable E w -> job ∈ sent w -> reachable E (snd (worker E workerID job w))
| reach_tags w idStr tags :
    reachable E w -> reachable E (snd (updateTagsHandler E idStr tags w))
| reach_search w query :
    reachable E w -> reachable E (snd (getMedia E query w)).

(** ** The pages and the status endpoint *)

(** What the handlers that render media hand back: a template with its
    data, a JSON error, the JSON of the status endpoint, or the bare 500
    of gin's recovery middleware ([gin.Default()]) after a panic. *)
Inductive Page :=
| c_HTML (code : Z) (name : string) (data : list Media)
| c_Error (code : Z) (h : list (string * string))
| c_Status (code : Z) (id : Z) (processing_status thumb_url ocr_text : string)
| c_Recovered (code : Z).

Definition StatusNotFound : Z := 404.

Section Pages.

Variable E : Env.

(** [DB.QueryRow(...).Scan(...)] by id: the row, or the error of the
    query, or [sql.ErrNoRows]. *)
Definition DB_QueryRow_media (id : Z) : M (Result Media) :=
  emit (EvQuery (SelectMediaById id)) ;;
  match DB_Query_err E (SelectMediaById id) with
  | Some err => ret (inr err)
  | None =>
      m <~ get media ;;
      match sql.select_media (SelectMediaById id) m with
      | r :: _ => ret (inl r)
      | [] => ret (inr "sql: no rows in result set")
      end
  end.

Definition indexHandler : M Page :=
  r <~ getMedia E "" ;;
  match r with
  | Failed err => ret (c_Error StatusInternalServerError [("error", err)])
  | Returned media => ret (c_HTML StatusOK "index.html" media)
  | Panicked => ret (c_Recovered StatusInternalServerError)
  end.

Definition searchHandler (q : string) : M Page :=
  log_Printf "Search query: '%s'" [AStr q] ;;
  r <~ getMedia E q ;;
  match r with
  | Failed err =>
      log_Printf "Search error: %v" [AErr err] ;;
      ret (c_Error StatusInternalServerError [("error", err)])
  | Returned media =>
      log_Printf "Found %d results for query '%s'"
        [AInt (Z.of_nat (length media)); AStr q] ;;
      ret (c_HTML StatusOK "grid" media)
  | Panicked => ret (c_Recovered StatusInternalServerError)
  end.

(** [getMediaStatusHandler]: [idStr] is [c.Param("id")], [HX_Request]
    is [c.GetHeader("HX-Request")].  [media.Thumb.String] of a NULL
    column is the empty string. *)
Definition getMediaStatusHandler (idStr HX_Request : string) : M Page :=
  match strconv.ParseInt idStr with
  | None => ret (c_Error StatusBadRequest [("error", "Invalid id")])
  | Some id =>
      r <~ DB_QueryRow_media id ;;
      match r with
      | inr _ => ret (c_Error StatusNotFound [("error", "Media not found")])
      | inl media =>
          (* Check if this is an HTMX request *)
          if String.eqb HX_Request "true" then
            ret (c_HTML StatusOK "grid" [media])
          else
            ret (c_Status StatusOK (ID media) (ProcessingStatus media)
                   (default "" (Thumb media)) (default "" (OcrText media)))
      end
  end.

(** A worker's loop over the jobs it receives, in the order received. *)
Fixpoint worker_loop (workerID : Z) (jobs : list ProcessingJob) : M unit :=
  match jobs with
  | [] => ret tt
  | job :: rest => worker E workerID job ;; worker_loop workerID rest
  end.

End Pages.

(** ** More vocabulary *)

(** A file that the first loop of [uploadHandler] lets through. *)
Definition acceptable (E : Env) (file : FileHeader) : Prop :=
  allowedTypes !! mimeOf E (filepath.Ext (Filename file)) = Some true /\
  Size file <= maxSize.

(** A request that [uploadHandler] answers before its second loop. *)
Definition refused_request (E : Env) (c : UploadRequest) : Prop :=
  match MultipartForm c with
  | inr _ => True
  | inl fhs => fhs = [] \/ is_Some (validate E fhs)
  end.

(** The columns of a record that only the INSERT writes. *)
Definition same_upload_fields (r r' : Media) : Prop :=
  ID r' = ID r /\ Path r' = Path r /\ Mime r' = Mime r /\
  SizeBytes r' = SizeBytes r /\ CreatedAt r' = CreatedAt r.

(** Between two worlds no record is deleted and none has its upload
    columns changed. *)
Definition records_kept (w w' : World) : Prop :=
  forall id r, media w !! id = Some r ->
    exists r', media w' !! id = Some r' /\ same_upload_fields r r'.

(** A step of the program relates the world before and after. *)
Definition keeps {A : Type} (R : World -> World -> Prop) (m : M A) : Prop :=
  forall w, R w (snd (m w)).

(** The job the second loop of [uploadHandler] makes of a file: its
    MIME type is the one the first loop checked, its path is under
    [storage/] with the extension of the file's name. *)
Definition job_of_file (E : Env) (file : FileHeader) (j : ProcessingJob) : Prop :=
  job_MimeType j = mimeOf E (filepath.Ext (Filename file)) /\
  exists t, job_Path j =
    "storage/" +:+ uuid_New E t +:+ filepath.Ext (Filename file).

(** Every row of [media] is still there afterwards, related to what it
    was by [P] (which may look at the key). *)
Definition rows_related (P : Z -> Media -> Media -> Prop) (w w' : World) : Prop :=
  forall k r, media w !! k = Some r ->
    exists r', media w' !! k = Some r' /\ P k r r'.

(** The two UPDATEs of [media] change a row only within [P]. *)
Definition update_respects (P : Z -> Media -> Media -> Prop) (s : Stmt) : Prop :=
  match s with
  | UpdateMediaTags tags id => forall r, P id r (sql.set_Tags tags r)
  | UpdateMediaProcessed thumb width height ocr_text id =>
      forall r, P id r (sql.set_processed thumb width height ocr_text r)
  | _ => True
  end.

(** What the job of record [id] may do to the row under key [k]: never
    its tags nor its upload columns, and nothing at all unless [k] is
    [id]. *)
Definition job_scope (id k : Z) (r r' : Media) : Prop :=
  Tags r' = Tags r /\ same_upload_fields r r' /\ (k <> id -> r' = r).

(** What a tag edit of record [id] may do to the row under key [k]:
    only its tags, and nothing at all unless [k] is [id]. *)
Definition tag_scope (id k : Z) (r r' : Media) : Prop :=
  same_upload_fields r r' /\
  ProcessingStatus r' = ProcessingStatus r /\ Thumb r' = Thumb r /\
  Width r' = Width r /\ Height r' = Height r /\ OcrText r' = OcrText r /\
  (k <> id -> r' = r).

(** A step of the program that sends no job. *)
Definition sends_nothing {A : Type} (m : M A) : Prop :=
  forall w, sent (snd (m w)) = sent w.

(** The events of a step that only reads: log lines and queries. *)
Definition is_reading (e : Event) : bool :=
  match e with
  | EvLog _ _ | EvQuery _ => true
  | _ => false
  end.

(** Between two worlds nothing has changed, and nothing has been done
    but reading and logging. *)
Definition reads_only (w w' : World) : Prop :=
  media w' = media w /\ media_fts w' = media_fts w /\ files w' = files w /\
  sent w' = sent w /\ tick w' = tick w /\
  exists evs, trace w' = trace w ++ evs /\ forallb is_reading evs = true.

(** * Properties *)

Ltac run :=
  unfold processMedia, processImage, processVideoOrGif, extractOCR, imaging_Open,
    imaging_Save, os_Remove, DB_Exec, DB_Query_media, DB_Query_rowids,
    jobQueue_send, log_Printf, bind, ret, emit, get, set_files, set_tables,
    push_sent, next_tick in *;
  simpl in *.

Ltac flat := simpl; rewrite <- ?app_assoc; simpl.

(** ** The Go library functions *)

Example TrimSpace_newlines :
  strings.TrimSpace (String "010" (" hi there " +:+ String "012" "")) = "hi there".
Proof. reflexivity. Qed.

Example TrimSpace_nbsp :
  strings.TrimSpace (String "194" (String "160" "x")) = "x".
Proof. reflexivity. Qed.

Example FormatInt_samples :
  strconv.FormatInt 42 = "42" /\ strconv.FormatInt (-7) = "-7" /\ strconv.FormatInt 0 = "0".
Proof. repeat split. Qed.

Example ParseInt_samples :
  strconv.ParseInt "42" = Some 42 /\ strconv.ParseInt "-7" = Some (-7) /\
  strconv.ParseInt "" = None /\ strconv.ParseInt "4x" = None /\
  strconv.ParseInt "9223372036854775808" = None /\
  strconv.ParseInt "-9223372036854775808" = Some (- 2 ^ 63).
Proof. repeat split. Qed.

Example Ext_samples :
  filepath.Ext "a/b.c/cat.tar.gz" = ".gz" /\ filepath.Ext "a.b/cat" = "" /\
  filepath.Ext "cat." = ".".
Proof. repeat split. Qed.

Lemma HasPrefix_video_not_image mimeType :
  strings.HasPrefix mimeType "video/" = true ->
  strings.HasPrefix mimeType "image/" = false.
Proof.
  unfold strings.HasPrefix.
  destruct mimeType as [|c s]; cbn [String.prefix]; [discriminate|].
  destruct (ascii_dec "v" c) as [<-|Hne]; [|discriminate].
  intros _. destruct (ascii_dec "i" "v"); [discriminate|reflexivity].
Qed.

Lemma FormatInt_inj i j : strconv.FormatInt i = strconv.FormatInt j -> i = j.
Proof.
  unfold strconv.FormatInt. intros H.
  assert (Hnn : forall z, Z.to_int z <> Decimal.Pos Decimal.Nil /\
                          Z.to_int z <> Decimal.Neg Decimal.Nil).
  { intros [|p|p]; simpl; split; try discriminate;
      intros Hp; injection Hp; apply Unsigned.to_uint_nonnil. }
  apply to_int_inj.
  assert (Some (Z.to_int i) = Some (Z.to_int j)) as Hs.
  { rewrite <- (NilZero.isi (Z.to_int i)) by apply Hnn.
    rewrite <- (NilZero.isi (Z.to_int j)) by apply Hnn.
    now rewrite H. }
  now injection Hs.
Qed.

Lemma length_append a s :
  String.length (a +:+ s) = (String.length a + String.length s)%nat.
Proof. induction a as [|c a IH]; simpl; [reflexivity|now rewrite IH]. Qed.

Lemma append_inv_tail a b s : a +:+ s = b +:+ s -> a = b.
Proof.
  revert b. induction a as [|c a IH]; intros [|d b] H; simpl in H.
  - reflexivity.
  - apply (f_equal String.length) in H. simpl in H.
    rewrite !length_append in H. simpl in H. exfalso. lia.
  - apply (f_equal String.length) in H. simpl in H.
    rewrite !length_append in H. simpl in H. exfalso. lia.
  - injection H as -> H. f_equal. now apply IH.
Qed.

(** The derived paths are keyed by the id: distinct ids, distinct paths. *)
Lemma thumbPath_inj id id' : thumbPath id' = thumbPath id -> id' = id.
Proof.
  unfold thumbPath. intros H. apply String.app_inj in H.
  apply append_inv_tail in H. now apply FormatInt_inj.
Qed.

Lemma framePath_inj id id' : framePath id' = framePath id -> id' = id.
Proof.
  unfold framePath. intros H. apply String.app_inj in H.
  apply append_inv_tail in H. now apply FormatInt_inj.
Qed.

(** No thumbnail path is a frame path. *)
Lemma thumbPath_not_framePath id id' : thumbPath id <> framePath id'.
Proof.
  unfold thumbPath, framePath. intros H. apply String.app_inj in H.
  assert (Hlen : String.length (strconv.FormatInt id) = String.length (strconv.FormatInt id')).
  { apply (f_equal String.length) in H. rewrite !length_append in H. simpl in H. lia. }
  revert H Hlen. generalize (strconv.FormatInt id) (strconv.FormatInt id').
  induction s as [|c s IH]; intros [|c' s']; simpl; try discriminate.
  intros [= _ H] [= Hl]. now apply (IH s').
Qed.

(** ** The media dispatcher *)

Section Dispatch.

Variable E : Env.

Let started (id : Z) (path mimeType : string) : Event :=
  EvLog "Starting media processing for ID %d, path: %s, type: %s"
    [AInt id; AStr path; AStr mimeType].

Let completed (id : Z) : Event :=
  EvLog "Completed media processing for ID %d" [AInt id].

Lemma processMedia_image id path mimeType :
  strings.HasPrefix mimeType "image/" = true ->
  processMedia E id path mimeType =
  (emit (started id path mimeType) ;; processImage E id path ;; emit (completed id)).
Proof. intros H. unfold processMedia. rewrite H. reflexivity. Qed.

Lemma processMedia_video id path mimeType :
  strings.HasPrefix mimeType "video/" = true ->
  processMedia E id path mimeType =
  (emit (started id path mimeType) ;; processVideoOrGif E id path ;; emit (completed id)).
Proof.
  intros H. unfold processMedia.
  rewrite (HasPrefix_video_not_image _ H), H. reflexivity.
Qed.

(** Any other MIME type: two log lines around a third, nothing else. *)
Lemma processMedia_other id path mimeType w :
  strings.HasPrefix mimeType "image/" = false ->
  strings.HasPrefix mimeType "video/" = false ->
  processMedia E id path mimeType w =
  (tt, {| media := media w; media_fts := media_fts w; files := files w;
          sent := sent w;
          trace := trace w ++
            [started id path mimeType;
             EvLog "Unsupported media type for processing: %s" [AStr mimeType];
             completed id];
          tick := tick w |}).
Proof.
  intros Hi Hv. unfold processMedia. rewrite Hi, Hv.
  assert (String.eqb mimeType "image/gif" = false) as ->.
  { apply String.eqb_neq. intros ->. discriminate Hi. }
  run. flat. reflexivity.
Qed.

(** C1, at the input where the code leaves the claim: a job declared
    [image/gif] is handled by [processImage] on the job's own path, the
    first branch of [processMedia]; [processVideoOrGif] is not called,
    although the second branch names [image/gif]. *)
Theorem gif_goes_to_processImage id path :
  processMedia E id path "image/gif" =
  (emit (started id path "image/gif") ;; processImage E id path ;; emit (completed id)).
Proof. apply processMedia_image. reflexivity. Qed.

End Dispatch.

(** ** The image processor *)

Lemma events_since_app w w' evs :
  trace w' = trace w ++ evs -> events_since w w' = evs.
Proof. intros H. unfold events_since. rewrite H. apply drop_app_length. Qed.

Section Image.

Variable E : Env.

Lemma processImage_open_fails id path w err :
  open_image (files w) path = inr err ->
  processImage E id path w =
  (tt, {| media := media w; media_fts := media_fts w; files := files w;
          sent := sent w;
          trace := trace w ++
            [EvOpen path;
             EvLog "Failed to open image %s: %v" [AStr path; AErr err]];
          tick := tick w |}).
Proof. intros H. run. rewrite H. flat. reflexivity. Qed.

Lemma processImage_save_fails id path w src err left :
  open_image (files w) path = inl src ->
  imaging_Save_err E (thumbnail src) (thumbPath id) = Some (err, left) ->
  processImage E id path w =
  (tt, {| media := media w; media_fts := media_fts w;
          files := match left with
                   | Some partial => <[thumbPath id := partial]> (files w)
                   | None => files w
                   end;
          sent := sent w;
          trace := trace w ++
            [EvOpen path; EvSave (thumbPath id);
             EvLog "Failed to save thumbnail %s: %v" [AStr (thumbPath id); AErr err]];
          tick := tick w |}).
Proof.
  intros Ho Hs. unfold thumbnail in Hs. run. rewrite Ho. simpl. rewrite Hs.
  destruct left; flat; reflexivity.
Qed.

(** The job that gets to the OCR step: the disk, the queue, both tables
    and the programs started, whatever tesseract and the database do. *)
Lemma processImage_saved id path w src :
  reaches_ocr E id path w src ->
  let fs := <[thumbPath id := jpeg E (thumbnail src)]> (files w) in
  let text := ocr_text_of E fs path in
  let w' := snd (processImage E id path w) in
  files w' = fs /\ sent w' = sent w /\
  media w' =
    match DB_Exec_err E (record_update E id path w src) with
    | None =>
        alter (sql.set_processed (thumbPath id) (imaging.Dx src) (imaging.Dy src) text)
          id (media w)
    | Some _ => media w
    end /\
  media_fts w' =
    match DB_Exec_err E (UpdateFtsOcr text id) with
    | None =>
        (fun r => if decide (fts_id r = Some id)
                  then sql.set_fts_ocr_text text r else r) <$> media_fts w
    | Some _ => media_fts w
    end /\
  exists evs, trace w' = trace w ++ evs /\
    List.filter is_command evs = [EvCommand "tesseract" [path; "stdout"; "-l"; "eng"]] /\
    List.filter is_store_access evs =
      [EvExec (record_update E id path w src); EvExec (UpdateFtsOcr text id)].
Proof.
  intros [Ho Hs]. unfold record_update, ocr_text_of, jpeg, thumbnail in *.
  cbv zeta.
  run. rewrite Ho. simpl. rewrite Hs. simpl.
  destruct (tesseract E _ path) as [out|err]; simpl;
    destruct (DB_Exec_err E (UpdateMediaProcessed _ _ _ _ _)); simpl;
    destruct (DB_Exec_err E (UpdateFtsOcr _ _)); simpl;
    (repeat split; []); eexists; (split; [rewrite <- ?app_assoc; reflexivity|]);
    split; reflexivity.
Qed.

(** An image job is [processImage] between two log lines. *)
Lemma image_job_world id path mimeType w :
  strings.HasPrefix mimeType "image/" = true ->
  let w0 := snd (emit (EvLog "Starting media processing for ID %d, path: %s, type: %s"
                         [AInt id; AStr path; AStr mimeType]) w) in
  snd (processMedia E id path mimeType w) =
  snd (emit (EvLog "Completed media processing for ID %d" [AInt id])
         (snd (processImage E id path w0))).
Proof.
  intros Hm. rewrite (processMedia_image _ _ _ _ Hm). cbv zeta.
  unfold bind at 1 2. cbn [emit].
  destruct (processImage E id path _) as [[] w1]. reflexivity.
Qed.

(** C6: an image job whose file does not decode, or whose thumbnail
    cannot be saved, leaves table [media] and the index as they were and
    sends nothing on the queue; it does not touch the database at all;
    what it leaves is the log line of the failure.  [processMedia] has no
    result, so no caller learns of it. *)
Theorem aborted_image_job_leaves_record id path mimeType w :
  strings.HasPrefix mimeType "image/" = true ->
  image_job_aborts E id path w ->
  let w' := snd (processMedia E id path mimeType w) in
  media w' = media w /\ media_fts w' = media_fts w /\ sent w' = sent w /\
  List.filter is_store_access (events_since w w') = [] /\
  exists err,
    EvLog "Failed to open image %s: %v" [AStr path; AErr err] ∈ events_since w w' \/
    EvLog "Failed to save thumbnail %s: %v" [AStr (thumbPath id); AErr err]
      ∈ events_since w w'.
Proof.
  intros Hm Hab. cbv zeta. rewrite (image_job_world _ _ _ _ Hm). cbv zeta.
  unfold image_job_aborts in Hab. cbn [emit snd].
  destruct (open_image (files w) path) as [src|err] eqn:Ho.
  - destruct Hab as [[err left] Hs].
    match goal with |- context [processImage E id path ?w0] =>
      rewrite (processImage_save_fails id path w0 src err left Ho Hs) end.
    cbn [snd media media_fts sent trace]. repeat split.
    + erewrite events_since_app; [|flat; reflexivity]. reflexivity.
    + exists err. right. erewrite events_since_app; [|flat; reflexivity].
      repeat constructor.
  - match goal with |- context [processImage E id path ?w0] =>
      rewrite (processImage_open_fails id path w0 err Ho) end.
    cbn [snd media media_fts sent trace]. repeat split.
    + erewrite events_since_app; [|flat; reflexivity]. reflexivity.
    + exists err. left. erewrite events_since_app; [|flat; reflexivity].
      repeat constructor.
Qed.

(** What [extractOCR] returns: the standard output of tesseract without
    the white space around it, and the empty string when the command
    fails; the one program it starts is tesseract, on the path it is
    given. *)
Lemma extractOCR_returns imagePath w :
  fst (extractOCR E imagePath w) = ocr_text_of E (files w) imagePath /\
  List.filter is_command (events_since w (snd (extractOCR E imagePath w))) =
    [EvCommand "tesseract" [imagePath; "stdout"; "-l"; "eng"]].
Proof.
  unfold ocr_text_of, events_since. run.
  destruct (tesseract E (files w) imagePath); simpl; split; try reflexivity;
    rewrite <- ?app_assoc; rewrite drop_app_length; reflexivity.
Qed.

Lemma ocr_text_of_failure fs imagePath err :
  tesseract E fs imagePath = inr err -> ocr_text_of E fs imagePath = "".
Proof. unfold ocr_text_of. now intros ->. Qed.

(** C4: an image job that reaches the OCR step starts exactly one
    external program, tesseract on the job's own path; the [ocr_text] it
    writes to the record is what [extractOCR] returns for that path (the
    empty string when tesseract fails), and the record ends [completed]
    whether tesseract failed or not. *)
Theorem ocr_on_original_path_degrades_to_empty id path mimeType w src r :
  strings.HasPrefix mimeType "image/" = true ->
  reaches_ocr E id path w src ->
  media w !! id = Some r ->
  DB_Exec_err E (record_update E id path w src) = None ->
  let w' := snd (processMedia E id path mimeType w) in
  let fs := <[thumbPath id := jpeg E (thumbnail src)]> (files w) in
  List.filter is_command (events_since w w') =
    [EvCommand "tesseract" [path; "stdout"; "-l"; "eng"]] /\
  (exists r', media w' !! id = Some r' /\
     OcrText r' = Some (ocr_text_of E fs path) /\
     ProcessingStatus r' = "completed") /\
  (forall err, tesseract E fs path = inr err -> ocr_text_of E fs path = "").
Proof.
  intros Hm Hr Hrec Hdb. cbv zeta. rewrite (image_job_world _ _ _ _ Hm). cbv zeta.
  cbn [emit snd].
  match goal with |- context [processImage E id path ?w0] =>
    destruct (processImage_saved id path w0 src Hr)
      as (Hf & Hq & Hmed & Hfts & evs & Htr & Hcmd & Hst);
    change (record_update E id path w0 src) with (record_update E id path w src) in *;
    cbn [files media trace] in Hf, Hmed, Htr
  end.
  rewrite Hdb in Hmed. cbn [media trace]. split; [|split].
  - erewrite events_since_app; [|rewrite Htr; rewrite <- !app_assoc; reflexivity].
    rewrite !List.filter_app, Hcmd. reflexivity.
  - rewrite Hmed. rewrite lookup_alter_eq, Hrec. simpl.
    eexists. split; [reflexivity|]. split; reflexivity.
  - apply ocr_text_of_failure.
Qed.

(** C5: of a decoded image of 300 by 200 pixels [processImage] writes a
    thumbnail of 200 by 133, resampled with the Lanczos filter (the
    library's high-quality one), at [static/<id>_thumb.jpg], a path that
    no other id has, and sets width 300 and height 200 on the record. *)
Theorem thumbnail_of_300_by_200 id path w src r :
  reaches_ocr E id path w src ->
  imaging.Dx src = 300 ->
  imaging.Dy src = 200 ->
  media w !! id = Some r ->
  DB_Exec_err E (record_update E id path w src) = None ->
  let w' := snd (processImage E id path w) in
  files w' !! thumbPath id =
    Some (jpeg E {| imaging.Dx := 200; imaging.Dy := 133;
                    imaging.Resampled := Some imaging.Lanczos |}) /\
  thumbPath id = "static/" +:+ strconv.FormatInt id +:+ "_thumb.jpg" /\
  (forall id', thumbPath id' = thumbPath id -> id' = id) /\
  (exists r', media w' !! id = Some r' /\
     Thumb r' = Some (thumbPath id) /\
     Width r' = Some 300 /\ Height r' = Some 200).
Proof.
  intros Hr Hx Hy Hrec Hdb. cbv zeta.
  destruct (processImage_saved id path w src Hr)
    as (Hf & Hq & Hmed & Hfts & evs & Htr & Hcmd & Hst).
  rewrite Hdb in Hmed. split; [|split; [|split]].
  - rewrite Hf, lookup_insert_eq. f_equal. f_equal.
    unfold thumbnail, imaging.Resize. rewrite Hx, Hy. reflexivity.
  - reflexivity.
  - intros id'. apply thumbPath_inj.
  - rewrite Hmed, lookup_alter_eq, Hrec. simpl. rewrite Hx, Hy.
    eexists. split; [reflexivity|]. repeat split.
Qed.

(** Rows of the index whose column [id] is NULL are not selected by
    [WHERE id = ?]: with the index as [uploadHandler] fills it,
    [processImage] changes no row of it. *)
Lemma processImage_leaves_index id path w :
  index_ids_null w ->
  media_fts (snd (processImage E id path w)) = media_fts w.
Proof.
  intros Hnull.
  destruct (open_image (files w) path) as [src|err] eqn:Ho.
  - destruct (imaging_Save_err E (thumbnail src) (thumbPath id)) as [[err left]|] eqn:Hs.
    + now rewrite (processImage_save_fails id path w src err left Ho Hs).
    + destruct (processImage_saved id path w src (conj Ho Hs))
        as (_ & _ & _ & Hfts & _).
      rewrite Hfts. destruct (DB_Exec_err E _); [reflexivity|].
      apply map_eq. intros k. rewrite lookup_fmap.
      destruct (media_fts w !! k) as [row|] eqn:Hk; [|reflexivity].
      simpl. rewrite (Hnull k row Hk). reflexivity.
  - now rewrite (processImage_open_fails id path w err Ho).
Qed.

End Image.

(** C3, at an input where the code leaves the claim: a PNG is uploaded
    into the empty vault and a worker processes its job, tesseract
    reading "hello world".  The record gets the text; the row of the
    index stays with the empty text it was inserted with, because the
    UPDATE of [processImage] selects on column [id], which the INSERT of
    [uploadHandler] leaves NULL (it sets [rowid]). *)
Theorem index_keeps_empty_ocr_text :
  let w := Samples.after_job Samples.env "cat.png" Samples.picture "cats" in
  (OcrText <$> media w !! 1) = Some (Some "hello world") /\
  (ProcessingStatus <$> media w !! 1) = Some "completed" /\
  (fts_ocr_text <$> media_fts w !! 1) = Some "" /\
  List.filter is_store_access (trace w) =
    [EvExec (InsertMedia "storage/f0.png" "image/png" 120000 "cats" "processing");
     EvExec (InsertFts 1 "" "cats" "storage/f0.png");
     EvExec (UpdateMediaProcessed "static/1_thumb.jpg" 300 200 "hello world" 1);
     EvExec (UpdateFtsOcr "hello world" 1)].
Proof. vm_compute. repeat split. Qed.

(** The same upload with a GIF: the worker starts tesseract on the
    uploaded file and never ffmpeg. *)
Example gif_job_starts_no_ffmpeg :
  List.filter is_command
    (trace (Samples.after_job Samples.env "cat.gif" Samples.picture "cats")) =
  [EvCommand "tesseract" ["storage/f0.gif"; "stdout"; "-l"; "eng"]].
Proof. vm_compute. reflexivity. Qed.

Lemma aborted_image_job_witness :
  let w := Samples.after_upload Samples.env "cat.png" Samples.clip "cats" in
  let w' := snd (processMedia Samples.env 1 "storage/f0.png" "image/png" w) in
  strings.HasPrefix "image/png" "image/" = true /\
  image_job_aborts Samples.env 1 "storage/f0.png" w /\
  media w' = media w /\ media_fts w' = media_fts w /\ sent w' = sent w /\
  List.filter is_store_access (events_since w w') = [].
Proof.
  assert (Hm : strings.HasPrefix "image/png" "image/" = true) by reflexivity.
  assert (Hab : image_job_aborts Samples.env 1 "storage/f0.png"
                  (Samples.after_upload Samples.env "cat.png" Samples.clip "cats"))
    by (vm_compute; exact I).
  split; [exact Hm|]. split; [exact Hab|].
  destruct (aborted_image_job_leaves_record Samples.env 1 "storage/f0.png" "image/png"
              _ Hm Hab) as (H1 & H2 & H3 & H4 & _).
  exact (conj H1 (conj H2 (conj H3 H4))).
Defined.

(** ** The video frame extractor *)

Section Video.

Variable E : Env.

(** A video job after a successful ffmpeg: [processImage] on the frame,
    [os.Remove] of the frame, the closing log line. *)
Lemma video_job_after_ffmpeg id path mimeType w :
  strings.HasPrefix mimeType "video/" = true ->
  fst (ffmpeg E (files w) path (framePath id)) = None ->
  processMedia E id path mimeType w =
  (processImage E id (framePath id) ;;
   _ <~ os_Remove E (framePath id) ;;
   emit (EvLog "Completed media processing for ID %d" [AInt id]))
    (frame_extracted E id path mimeType w).
Proof.
  intros Hm Hff. rewrite (processMedia_video _ _ _ _ Hm).
  unfold frame_extracted, processVideoOrGif.
  unfold bind. cbn [emit get fst snd files trace].
  destruct (ffmpeg E (files w) path (framePath id)) as [err out] eqn:Hf.
  simpl in Hff. subst err. cbn [snd].
  destruct out as [frame|]; cbn [set_files ret media media_fts files sent trace tick];
    rewrite <- app_assoc; cbn [app];
    destruct (processImage E id (framePath id) _) as [[] w2];
    destruct (os_Remove E (framePath id) w2) as [e w3];
    reflexivity.
Qed.

(** [os.Remove]: one event; the tables and the queue stay; the file is
    gone unless the removal is refused. *)
Lemma os_Remove_effect path w :
  let w' := snd (os_Remove E path w) in
  trace w' = trace w ++ [EvRemove path] /\
  media w' = media w /\ media_fts w' = media_fts w /\ sent w' = sent w /\
  (os_Remove_err E path = None -> files w' !! path = None).
Proof.
  cbv zeta. unfold os_Remove, bind, emit, get, ret, set_files. simpl.
  destruct (files w !! path) as [f|] eqn:Hlk; simpl.
  - destruct (os_Remove_err E path) as [e|]; simpl.
    + repeat (split; [reflexivity|]). discriminate.
    + repeat (split; [reflexivity|]). intros _. apply lookup_delete_eq.
  - repeat (split; [reflexivity|]). intros _. exact Hlk.
Qed.

(** A refused [os.Remove] leaves the disk as it was. *)
Lemma os_Remove_refused path w :
  os_Remove_err E path <> None -> files (snd (os_Remove E path w)) = files w.
Proof.
  intros Hr. unfold os_Remove, bind, emit, get, ret, set_files. simpl.
  destruct (files w !! path); simpl; [|reflexivity].
  destruct (os_Remove_err E path); simpl; [reflexivity|congruence].
Qed.

(** When the frame extraction fails [processVideoOrGif] returns before
    [processImage] and before [os.Remove]: the tables and the queue are
    as before, no removal is attempted, and whatever ffmpeg wrote at the
    frame path stays on disk. *)
Lemma failed_extraction_attempts_no_removal id path mimeType w err :
  strings.HasPrefix mimeType "video/" = true ->
  fst (ffmpeg E (files w) path (framePath id)) = Some err ->
  let w' := snd (processMedia E id path mimeType w) in
  media w' = media w /\ media_fts w' = media_fts w /\ sent w' = sent w /\
  files w' = files (frame_extracted E id path mimeType w) /\
  files w' !! framePath id =
    match snd (ffmpeg E (files w) path (framePath id)) with
    | Some frame => Some frame
    | None => files w !! framePath id
    end /\
  events_since w w' =
    [EvLog "Starting media processing for ID %d, path: %s, type: %s"
       [AInt id; AStr path; AStr mimeType];
     EvCommand "ffmpeg" ["-i"; path; "-vframes"; "1"; "-q:v"; "2"; framePath id];
     EvLog "Failed to extract frame for %s: %v" [AStr path; AErr err];
     EvLog "Completed media processing for ID %d" [AInt id]].
Proof.
  intros Hm Hff. cbv zeta. rewrite (processMedia_video _ _ _ _ Hm).
  unfold events_since, frame_extracted, processVideoOrGif.
  unfold bind, emit, get, log_Printf.
  cbn [fst snd media media_fts files sent trace tick].
  destruct (ffmpeg E (files w) path (framePath id)) as [e out]. simpl in Hff. subst e.
  destruct out as [frame|]; simpl; repeat split;
    try apply lookup_insert_eq;
    rewrite <- !app_assoc, drop_app_length; reflexivity.
Qed.

(** [processImage] writes no file but the thumbnail. *)
Lemma processImage_files_elsewhere id path w q :
  q <> thumbPath id ->
  files (snd (processImage E id path w)) !! q = files w !! q.
Proof.
  intros Hq. unfold processImage, imaging_Open, imaging_Save, extractOCR, DB_Exec, log_Printf.
  unfold bind, emit, get, ret, set_files, set_tables, next_tick.
  cbn -[sql.exec].
  destruct (open_image (files w) path) as [src|err]; cbn -[sql.exec]; [|reflexivity].
  destruct (imaging_Save_err E _ (thumbPath id)) as [[err [left|]]|]; cbn -[sql.exec];
    try reflexivity; try (now apply lookup_insert_ne).
  destruct (tesseract E _ path) as [out|err]; cbn -[sql.exec];
    repeat match goal with
           | |- context [DB_Exec_err E ?s] => destruct (DB_Exec_err E s); cbn -[sql.exec]
           | |- context [sql.exec ?a ?b ?c ?d] => destruct (sql.exec a b c d) as [[? ?]|?];
                                                   cbn -[sql.exec]
           end;
    now apply lookup_insert_ne.
Qed.

(** [processImage] attempts no removal. *)
Lemma processImage_removes_nothing id path w :
  exists evs,
    trace (snd (processImage E id path w)) = trace w ++ evs /\
    List.filter is_removal evs = [].
Proof.
  unfold processImage, imaging_Open, imaging_Save, extractOCR, DB_Exec, log_Printf.
  unfold bind, emit, get, ret, set_files, set_tables, next_tick.
  cbn -[sql.exec].
  destruct (open_image (files w) path) as [src|err]; cbn -[sql.exec];
    [|eexists; split; [rewrite <- !app_assoc; reflexivity|reflexivity]].
  destruct (imaging_Save_err E _ (thumbPath id)) as [[err [left|]]|]; cbn -[sql.exec];
    try (eexists; split; [rewrite <- !app_assoc; reflexivity|reflexivity]).
  destruct (tesseract E _ path) as [out|err]; cbn -[sql.exec];
    repeat match goal with
           | |- context [DB_Exec_err E ?s] => destruct (DB_Exec_err E s); cbn -[sql.exec]
           | |- context [sql.exec ?a ?b ?c ?d] => destruct (sql.exec a b c d) as [[? ?]|?];
                                                   cbn -[sql.exec]
           end;
    (eexists; split; [rewrite <- !app_assoc; reflexivity|reflexivity]).
Qed.

(** C8, as the code has it, for a video job.  When the frame extraction
    succeeds, [os.Remove] of the frame file is the last thing done
    before the job's closing log line, whatever [processImage] did with
    the frame, and it is the one removal the job attempts; if the removal is not refused the frame file is not on
    disk afterwards; if it is refused the disk stays as [processImage]
    left it, with what ffmpeg wrote still at the frame path; refused or
    not, the removal changes neither table nor the queue, and the job
    runs to its end.  When the frame extraction fails the job ends
    without [processImage] and without a removal: the tables and the
    queue are as before and what ffmpeg wrote, if anything, is still at
    the frame path. *)
Theorem frame_removal_after_video_job id path mimeType w :
  strings.HasPrefix mimeType "video/" = true ->
  let w' := snd (processMedia E id path mimeType w) in
  let at_frame_path :=
    match snd (ffmpeg E (files w) path (framePath id)) with
    | Some frame => Some frame
    | None => files w !! framePath id
    end in
  match fst (ffmpeg E (files w) path (framePath id)) with
  | None =>
      let w2 := snd (processImage E id (framePath id)
                       (frame_extracted E id path mimeType w)) in
      trace w' = trace w2 ++
        [EvRemove (framePath id);
         EvLog "Completed media processing for ID %d" [AInt id]] /\
      List.filter is_removal (events_since w w') = [EvRemove (framePath id)] /\
      (os_Remove_err E (framePath id) = None -> files w' !! framePath id = None) /\
      (os_Remove_err E (framePath id) <> None ->
         files w' = files w2 /\
         files w' !! framePath id = files w2 !! framePath id /\
         files w' !! framePath id = at_frame_path) /\
      media w' = media w2 /\ media_fts w' = media_fts w2 /\ sent w' = sent w2
  | Some err =>
      media w' = media w /\ media_fts w' = media_fts w /\ sent w' = sent w /\
      files w' = files (frame_extracted E id path mimeType w) /\
      files w' !! framePath id = at_frame_path /\
      events_since w w' =
        [EvLog "Starting media processing for ID %d, path: %s, type: %s"
           [AInt id; AStr path; AStr mimeType];
         EvCommand "ffmpeg" ["-i"; path; "-vframes"; "1"; "-q:v"; "2"; framePath id];
         EvLog "Failed to extract frame for %s: %v" [AStr path; AErr err];
         EvLog "Completed media processing for ID %d" [AInt id]]
  end.
Proof.
  intros Hm. cbv zeta.
  destruct (fst (ffmpeg E (files w) path (framePath id))) as [err|] eqn:Hff.
  - exact (failed_extraction_attempts_no_removal id path mimeType w err Hm Hff).
  - rewrite (video_job_after_ffmpeg _ _ _ _ Hm Hff).
    unfold bind.
    pose proof (processImage_files_elsewhere id (framePath id)
                  (frame_extracted E id path mimeType w) (framePath id)) as Hkeepframe.
    destruct (processImage_removes_nothing id (framePath id)
                (frame_extracted E id path mimeType w)) as (evs & Hevs & Hnone).
    destruct (processImage E id (framePath id) _) as [[] w2]. cbn [snd] in *.
    pose proof (os_Remove_effect (framePath id) w2) as Hrm. cbv zeta in Hrm.
    pose proof (os_Remove_refused (framePath id) w2) as Hkeep.
    destruct (os_Remove E (framePath id) w2) as [e w3]. cbn [snd] in Hrm, Hkeep.
    destruct Hrm as (Htr & Hmed & Hfts & Hq & Hgone).
    cbn [emit snd trace media media_fts sent files].
    rewrite Htr, <- app_assoc.
    split; [reflexivity|].
    split.
    { unfold events_since. rewrite Hevs. unfold frame_extracted. cbn [trace].
      rewrite <- !app_assoc, drop_app_length. cbn [app List.filter is_removal].
      rewrite List.filter_app, Hnone. reflexivity. }
    split; [exact Hgone|].
    split; [|auto].
    intros Hr. rewrite (Hkeep Hr). split; [reflexivity|]. split; [reflexivity|].
    rewrite Hkeepframe by (intros H; exact (thumbPath_not_framePath id id (eq_sym H))).
    unfold frame_extracted. cbn [files].
    destruct (snd (ffmpeg E (files w) path (framePath id))) as [frame|];
      [apply lookup_insert_eq|reflexivity].
Qed.

End Video.

(** C8 as stated does not hold: a video is uploaded, ffmpeg writes the
    frame, [processImage] completes the record, and [os.Remove] is
    refused; the job has run to its closing log line and the frame file
    is still on disk. *)
Lemma frame_file_survives_refused_removal :
  let w := Samples.after_job Samples.env_remove_denied "cat.mp4" Samples.clip "cats" in
  files w !! framePath 1 = Some Samples.frame /\
  last (trace w) = Some (EvLog "Completed media processing for ID %d" [AInt 1]) /\
  (ProcessingStatus <$> media w !! 1) = Some "completed".
Proof. vm_compute. repeat split. Qed.

(** The other way the frame file outlives its job: ffmpeg is killed
    after it has begun to write the frame; the job ends without a
    removal and the partial file is on disk. *)
Example frame_file_survives_failed_extraction :
  let w := Samples.after_job Samples.env_ffmpeg_killed "cat.mp4" Samples.clip "cats" in
  files w !! framePath 1 = Some Samples.partial_frame /\
  List.filter is_removal (trace w) = [] /\
  last (trace w) = Some (EvLog "Completed media processing for ID %d" [AInt 1]) /\
  (ProcessingStatus <$> media w !! 1) = Some "processing".
Proof. vm_compute. repeat split. Qed.

(** C8 on an uploaded clip: with everything working the frame file is
    gone after the job; and with ffmpeg killed no removal is recorded and
    the partial frame is what the frame path holds. *)
Lemma frame_removal_witness :
  let w := Samples.after_upload Samples.env "cat.mp4" Samples.clip "cats" in
  let w' := snd (processMedia Samples.env 1 "storage/f0.mp4" "video/mp4" w) in
  let wk := snd (processMedia Samples.env_ffmpeg_killed 1 "storage/f0.mp4" "video/mp4" w) in
  strings.HasPrefix "video/mp4" "video/" = true /\
  fst (ffmpeg Samples.env (files w) "storage/f0.mp4" (framePath 1)) = None /\
  os_Remove_err Samples.env (framePath 1) = None /\
  files w' !! framePath 1 = None /\
  files wk !! framePath 1 = Some Samples.partial_frame /\
  media wk = media w.
Proof.
  assert (Hm : strings.HasPrefix "video/mp4" "video/" = true) by reflexivity.
  assert (Hf : fst (ffmpeg Samples.env
                      (files (Samples.after_upload Samples.env "cat.mp4" Samples.clip "cats"))
                      "storage/f0.mp4" (framePath 1)) = None)
    by (vm_compute; reflexivity).
  split; [exact Hm|]. split; [exact Hf|]. split; [reflexivity|].
  pose proof (frame_removal_after_video_job Samples.env 1 "storage/f0.mp4" "video/mp4"
                (Samples.after_upload Samples.env "cat.mp4" Samples.clip "cats") Hm) as H.
  pose proof (frame_removal_after_video_job Samples.env_ffmpeg_killed 1 "storage/f0.mp4"
                "video/mp4"
                (Samples.after_upload Samples.env "cat.mp4" Samples.clip "cats") Hm) as Hk.
  cbv zeta in H, Hk. rewrite Hf in H.
  change (fst (ffmpeg Samples.env_ffmpeg_killed
                 (files (Samples.after_upload Samples.env "cat.mp4" Samples.clip "cats"))
                 "storage/f0.mp4" (framePath 1)))
    with (Some "signal: killed" : option error) in Hk.
  change (snd (ffmpeg Samples.env_ffmpeg_killed
                 (files (Samples.after_upload Samples.env "cat.mp4" Samples.clip "cats"))
                 "storage/f0.mp4" (framePath 1)))
    with (Some Samples.partial_frame) in Hk.
  cbv iota in Hk.
  destruct H as (_ & _ & Hgone & _).
  destruct Hk as (Hmed & _ & _ & _ & Hat & _).
  split; [exact (Hgone eq_refl)|]. split; [exact Hat|exact Hmed].
Defined.

(** ** Ingestion *)

Lemma foldr_max_ge (k : Z) (ks : list Z) (x : Z) :
  x ∈ k :: ks -> x <= foldr Z.max k ks.
Proof.
  induction ks as [|y ks IH]; simpl; intros Hx.
  - apply list_elem_of_singleton in Hx. lia.
  - apply elem_of_cons in Hx as [->|Hx].
    + assert (k <= foldr Z.max k ks) by (apply IH; left). lia.
    + apply elem_of_cons in Hx as [->|Hx]; [lia|].
      assert (x <= foldr Z.max k ks) by (apply IH; now right). lia.
Qed.

(** The rowid SQLite picks is not in use. *)
Lemma next_rowid_fresh {V : Type} (pick : option Z) (m : gmap Z V) (id : Z) :
  sql.next_rowid pick m = Some id -> m !! id = None.
Proof.
  unfold sql.next_rowid. intros H.
  destruct (m !! id) as [v|] eqn:Hlk; [|reflexivity]. exfalso.
  pose proof Hlk as Hlk0.
  apply elem_of_map_to_list in Hlk.
  assert (Hin : id ∈ map fst (map_to_list m)).
  { apply list_elem_of_fmap. exists (id, v). split; [reflexivity|exact Hlk]. }
  destruct (map fst (map_to_list m)) as [|k ks]; [inversion Hin|].
  apply foldr_max_ge in Hin.
  destruct (foldr Z.max k ks <? strconv.maxInt64).
  - injection H as <-. lia.
  - destruct pick as [c|]; [|discriminate].
    destruct ((1 <=? c) && (c <=? strconv.maxInt64) && bool_decide (m !! c = None))
      eqn:Hc; [|discriminate].
    injection H as ->. apply andb_prop in Hc as [_ Hc].
    apply bool_decide_eq_true in Hc. congruence.
Qed.

Section Upload.

Variable E : Env.

(** The INSERT goes through. *)
Lemma ingest_inserted path mimeType sizeBytes tags w id :
  DB_Exec_err E (InsertMedia path mimeType sizeBytes tags "processing") = None ->
  sql.next_rowid (sqlite_random_rowid E (tick w)) (media w) = Some id ->
  let out := ingest E path mimeType sizeBytes tags w in
  fst out = None /\
  media w !! id = None /\
  media (snd out) =
    <[id := {| ID := id; Path := path; Thumb := None; Mime := mimeType;
               Width := None; Height := None; SizeBytes := sizeBytes;
               Tags := tags; OcrText := None;
               ProcessingStatus := "processing";
               CreatedAt := CURRENT_TIMESTAMP E (tick w) |}]> (media w) /\
  sent (snd out) =
    sent w ++ [{| job_ID := id; job_Path := path; job_MimeType := mimeType |}].
Proof.
  intros Hdb Hid. cbv zeta. unfold ingest. run. rewrite Hdb. simpl. rewrite Hid. simpl.
  destruct (DB_Exec_err E (InsertFts _ _ _ _)); simpl.
  - repeat split; eauto using next_rowid_fresh.
  - destruct (media_fts w !! id); simpl; repeat split; eauto using next_rowid_fresh.
Qed.

(** The INSERT fails: refused by the database, or SQLite finds no rowid
    (SQLITE_FULL). *)
Lemma ingest_refused path mimeType sizeBytes tags w :
  is_Some (DB_Exec_err E (InsertMedia path mimeType sizeBytes tags "processing")) \/
  sql.next_rowid (sqlite_random_rowid E (tick w)) (media w) = None ->
  let out := ingest E path mimeType sizeBytes tags w in
  (exists err, fst out = Some (c_JSON StatusInternalServerError [("error", err)])) /\
  media (snd out) = media w /\ media_fts (snd out) = media_fts w /\
  sent (snd out) = sent w.
Proof.
  intros H. cbv zeta. unfold ingest. run.
  destruct (DB_Exec_err E (InsertMedia _ _ _ _ _)) as [err|] eqn:Hdb; simpl.
  - eauto 10.
  - destruct H as [[e He]|Hn]; [discriminate|]. rewrite Hn. simpl. eauto 10.
Qed.

(** C2: for a file that has reached the INSERT of [uploadHandler], when
    the INSERT goes through, table [media] gains exactly one row, under
    an id not in use before (one more than the largest id or, once the
    largest int64 is in use, the unused id SQLite picks at random), with
    status [processing] and [thumb],
    [width], [height] and [ocr_text] NULL, and exactly one job with that
    id, the path and the MIME type is sent on the queue; when the INSERT
    fails, the handler answers 500 with the error, table [media] is as
    before and nothing is sent. *)
Theorem ingest_one_record_one_job path mimeType sizeBytes tags w :
  let out := ingest E path mimeType sizeBytes tags w in
  match DB_Exec_err E (InsertMedia path mimeType sizeBytes tags "processing"),
        sql.next_rowid (sqlite_random_rowid E (tick w)) (media w) with
  | None, Some id =>
      fst out = None /\
      media w !! id = None /\
      media (snd out) =
        <[id := {| ID := id; Path := path; Thumb := None; Mime := mimeType;
                   Width := None; Height := None; SizeBytes := sizeBytes;
                   Tags := tags; OcrText := None;
                   ProcessingStatus := "processing";
                   CreatedAt := CURRENT_TIMESTAMP E (tick w) |}]> (media w) /\
      sent (snd out) =
        sent w ++ [{| job_ID := id; job_Path := path; job_MimeType := mimeType |}]
  | _, _ =>
      (exists err, fst out = Some (c_JSON StatusInternalServerError [("error", err)])) /\
      media (snd out) = media w /\ media_fts (snd out) = media_fts w /\
      sent (snd out) = sent w
  end.
Proof.
  cbv zeta.
  destruct (DB_Exec_err E (InsertMedia _ _ _ _ _)) as [err|] eqn:Hdb.
  - assert (Hr := ingest_refused path mimeType sizeBytes tags w).
    rewrite Hdb in Hr. destruct (sql.next_rowid _ (media w)); apply Hr; left; eauto.
  - destruct (sql.next_rowid _ (media w)) as [id|] eqn:Hid.
    + now apply ingest_inserted.
    + apply ingest_refused. now right.
Qed.

(** The whole second loop: the jobs sent are as many as the rows added
    to [media], at most one per file and one per file when the answer
    is "uploaded"; each job has its own fresh record; no earlier row is
    lost or changed. *)
Lemma uploadFiles_records_and_jobs fhs tags w :
  let out := uploadFiles E fhs tags w in
  exists jobs,
    sent (snd out) = sent w ++ jobs /\
    (length jobs <= length fhs)%nat /\
    (fst out = c_JSON StatusOK [("message", "uploaded")] -> length jobs = length fhs) /\
    size (media (snd out)) = (size (media w) + length jobs)%nat /\
    media w ⊆ media (snd out) /\
    Forall (fun j => media w !! job_ID j = None /\
                     exists r, media (snd out) !! job_ID j = Some r /\ fresh_record j r) jobs.
Proof.
  cbv zeta. revert w. induction fhs as [|file rest IH]; intros w.
  - exists []. simpl. rewrite app_nil_r. repeat split; auto.
  - cbn [uploadFiles].
    unfold SaveUploadedFile, os_Stat, next_tick, bind, emit, get, ret, set_files.
    cbn [fst snd media media_fts files sent trace tick].
    destruct (SaveUploadedFile_err E _) as [err|];
      cbn [fst snd media media_fts files sent trace tick].
    + exists []. simpl. rewrite app_nil_r. repeat split; auto; [lia|discriminate].
    + rewrite lookup_insert_eq.
      match goal with |- context [ingest E ?p ?m ?sz tags ?w0] =>
        pose proof (ingest_refused p m sz tags w0) as Hno;
        pose proof (ingest_inserted p m sz tags w0) as Hin;
        cbv zeta in Hno, Hin; cbn [media media_fts sent tick] in Hno, Hin;
        destruct (ingest E p m sz tags w0) as [o w1] eqn:Hrun
      end.
      cbn [fst snd] in Hno, Hin.
      destruct (DB_Exec_err E _) as [err|].
      { destruct Hno as ([err' ->] & Hm & _ & Hs); [left; eauto|].
        exists []. cbn [fst snd]. rewrite Hm, Hs, app_nil_r.
        repeat split; auto; simpl; [lia|discriminate]. }
      destruct (sql.next_rowid _ (media w)) as [id|].
      2:{ destruct Hno as ([err' ->] & Hm & _ & Hs); [now right|].
        exists []. cbn [fst snd]. rewrite Hm, Hs, app_nil_r.
        repeat split; auto; simpl; [lia|discriminate]. }
      destruct (Hin id eq_refl eq_refl) as (-> & Hfresh & Hm & Hs).
      destruct (IH w1) as (jobs & Hs' & Hlen & Hok & Hsz & Hsub & Hall).
      destruct (uploadFiles E rest tags w1) as [resp w2]. cbn [fst snd] in *.
      eexists (_ :: jobs). rewrite Hs', Hs, <- app_assoc. split; [reflexivity|].
      assert (Hsub0 : media w ⊆ media w1).
      { rewrite Hm. now apply insert_subseteq. }
      split; [simpl; lia|]. split; [intros Hr; simpl; f_equal; auto|].
      split; [rewrite Hsz, Hm, map_size_insert_None by exact Hfresh; simpl; lia|].
      split; [etransitivity; eassumption|].
      constructor.
      * split; [exact Hfresh|]. eexists. split.
        -- eapply lookup_weaken; [|exact Hsub]. rewrite Hm. apply lookup_insert_eq.
        -- repeat split.
      * eapply Forall_impl; [exact Hall|]. intros j [Hn Hr]. split; [|exact Hr].
        destruct (media w !! job_ID j) as [r0|] eqn:Hj; [|reflexivity].
        apply (lookup_weaken _ _ _ _ Hj) in Hsub0. congruence.
Qed.

End Upload.

(** C2 at two vaults.  Beside a record that holds the largest int64 as
    its id SQLite picks an unused id at random, and the upload gets its
    record and its job under that id, the old record staying.  Where the
    database refuses the INSERT the handler answers 500, no record is
    made and nothing is sent. *)
Lemma ingest_witness :
  let w := Samples.vault_at_top in
  let out := ingest Samples.env "storage/new.png" "image/png" 10 "cats" w in
  let refused :=
    ingest Samples.env_insert_refused "storage/new.png" "image/png" 10 "cats" w in
  (sql.next_rowid (sqlite_random_rowid Samples.env (tick w)) (media w) =
     Some 759303819177684512 /\
   fst out = None /\
   media w !! 759303819177684512 = None /\
   (ProcessingStatus <$> media (snd out) !! 759303819177684512) = Some "processing" /\
   media (snd out) !! strconv.maxInt64 = Some Samples.oldest /\
   sent (snd out) =
     [{| job_ID := 759303819177684512; job_Path := "storage/new.png";
         job_MimeType := "image/png" |}]) /\
  ((exists err, fst refused = Some (c_JSON StatusInternalServerError [("error", err)])) /\
   media (snd refused) = media w /\ sent (snd refused) = sent w).
Proof.
  cbv zeta.
  assert (Hid : sql.next_rowid (sqlite_random_rowid Samples.env (tick Samples.vault_at_top))
                  (media Samples.vault_at_top) = Some 759303819177684512)
    by (vm_compute; reflexivity).
  pose proof (ingest_one_record_one_job Samples.env "storage/new.png" "image/png" 10 "cats"
                Samples.vault_at_top) as H.
  pose proof (ingest_one_record_one_job Samples.env_insert_refused "storage/new.png"
                "image/png" 10 "cats" Samples.vault_at_top) as Hr.
  cbv zeta in H, Hr. rewrite Hid in H.
  change (DB_Exec_err Samples.env
            (InsertMedia "storage/new.png" "image/png" 10 "cats" "processing"))
    with (@None error) in H.
  change (DB_Exec_err Samples.env_insert_refused
            (InsertMedia "storage/new.png" "image/png" 10 "cats" "processing"))
    with (Some "database is locked" : option error) in Hr.
  cbv iota in H, Hr.
  destruct H as (Hout & Hfresh & Hmedia & Hsent).
  destruct Hr as (Herr & Hsame & _ & Hnone).
  split.
  - split; [exact Hid|]. split; [exact Hout|]. split; [exact Hfresh|].
    rewrite Hmedia. split; [now rewrite lookup_insert_eq|].
    split; [|exact Hsent].
    rewrite lookup_insert_ne by discriminate. apply lookup_singleton_eq.
  - split; [exact Herr|]. split; [exact Hsame|exact Hnone].
Defined.

(** ** The query engine *)

Lemma string_leb_trans (a b c : string) :
  String.leb a b = true -> String.leb b c = true -> String.leb a c = true.
Proof.
  unfold String.leb. revert b c.
  induction a as [|x a IH]; intros [|y b] [|z c]; simpl; try congruence.
  unfold Ascii.compare.
  destruct (N.compare_spec (N_of_ascii x) (N_of_ascii y)) as [Hxy|Hxy|Hxy];
  destruct (N.compare_spec (N_of_ascii y) (N_of_ascii z)) as [Hyz|Hyz|Hyz];
  destruct (N.compare_spec (N_of_ascii x) (N_of_ascii z)) as [Hxz|Hxz|Hxz];
    try congruence; try lia.
  apply IH.
Qed.

#[local] Instance created_desc_trans : Transitive sql.created_desc.
Proof.
  intros a b c Hab Hbc. unfold sql.created_desc in *.
  eapply string_leb_trans; eassumption.
Qed.

#[local] Instance created_desc_total : Total sql.created_desc.
Proof.
  intros a b. unfold sql.created_desc.
  destruct (String.leb_total (CreatedAt a) (CreatedAt b)); auto.
Qed.

(** [WHERE id IN (...) ORDER BY created_at DESC]: the rows whose id is
    listed, each as often as the table has it, newest first. *)
Lemma select_media_in_spec ids m :
  let rows := sql.select_media (SelectMediaIn ids) m in
  rows ≡ₚ List.filter (sql.id_in ids) (sql.rows_of m) /\
  StronglySorted sql.created_desc rows /\
  (forall r, r ∈ rows <-> r ∈ sql.rows_of m /\ ID r ∈ ids).
Proof.
  cbv zeta. simpl. split; [apply merge_sort_Permutation|].
  split; [apply StronglySorted_merge_sort; apply _|].
  intros r. rewrite merge_sort_Permutation.
  rewrite list_elem_of_In, List.filter_In, <- list_elem_of_In.
  unfold sql.id_in. rewrite bool_decide_eq_true. reflexivity.
Qed.

Section Query.

Variable E : Env.

(** C7: for a query that is not empty, the ids come from the MATCH on
    [media_fts] and nothing else; with no id matched the result is the
    empty list and the one statement run is that MATCH; otherwise the
    second statement reads [media] and the result is the rows whose id
    was matched, newest first. *)
Theorem search_by_index_then_records query w :
  query <> "" ->
  (forall q, DB_Query_err E q = None) ->
  let ids := sql.select_rowids (MATCH E query) (media_fts w) in
  let out := getMedia E query w in
  match ids with
  | [] =>
      fst out = Returned [] /\
      List.filter is_store_access (events_since w (snd out)) =
        [EvQuery (SelectFtsMatch query)]
  | _ :: _ =>
      List.filter is_store_access (events_since w (snd out)) =
        [EvQuery (SelectFtsMatch query); EvQuery (SelectMediaIn ids)] /\
      exists rows, fst out = Returned rows /\
        (forall r, r ∈ rows <-> r ∈ sql.rows_of (media w) /\ ID r ∈ ids) /\
        rows ≡ₚ List.filter (sql.id_in ids) (sql.rows_of (media w)) /\
        StronglySorted sql.created_desc rows
  end.
Proof.
  intros Hq Hdb. cbv zeta. unfold getMedia.
  apply String.eqb_neq in Hq. rewrite Hq.
  unfold events_since. run. rewrite !Hdb. simpl.
  destruct (sql.select_rowids (MATCH E query) (media_fts w)) as [|id ids] eqn:Hids; simpl.
  - split; [reflexivity|]. rewrite <- !app_assoc, drop_app_length. reflexivity.
  - split.
    + rewrite <- !app_assoc, drop_app_length. reflexivity.
    + eexists. split; [reflexivity|].
      destruct (select_media_in_spec (id :: ids) (media w)) as (Hp & Hs & Hm).
      auto.
Qed.

End Query.
(** ** The index and the records *)

Lemma preserves_ret {A : Type} (P : World -> Prop) (a : A) : preserves P (ret a).
Proof. intros w Hw. exact Hw. Qed.

Lemma preserves_bind {A B : Type} (P : World -> Prop) (m : M A) (k : A -> M B) :
  preserves P m -> (forall a, preserves P (k a)) -> preserves P (bind m k).
Proof.
  intros Hm Hk w Hw. unfold bind. specialize (Hm w Hw).
  destruct (m w) as [a w1]. now apply Hk.
Qed.

Lemma index_inv_tables w w' :
  media w' = media w -> media_fts w' = media_fts w -> index_inv w -> index_inv w'.
Proof.
  unfold index_inv, index_within_records, index_ids_null. now intros -> ->.
Qed.

Lemma preserves_emit e : preserves index_inv (emit e).
Proof. intros w. now apply index_inv_tables. Qed.

Lemma preserves_get {A : Type} (proj : World -> A) : preserves index_inv (get proj).
Proof. intros w Hw. exact Hw. Qed.

Lemma preserves_set_files fs : preserves index_inv (set_files fs).
Proof. intros w. now apply index_inv_tables. Qed.

Lemma preserves_push_sent j : preserves index_inv (push_sent j).
Proof. intros w. now apply index_inv_tables. Qed.

Lemma preserves_next_tick : preserves index_inv next_tick.
Proof. intros w. now apply index_inv_tables. Qed.

(** What one accepted statement does to the invariant: the UPDATEs and
    the INSERT into [media] keep it; the INSERT into [media_fts] keeps it
    when its rowid is the id of a record. *)
Lemma exec_index_inv now pick s m f id m' f' :
  sql.exec now pick s (m, f) = inl (id, (m', f')) ->
  match s with InsertFts rowid _ _ _ => rowid ∈ dom m | _ => True end ->
  dom f ⊆ dom m /\ (forall k r, f !! k = Some r -> fts_id r = None) ->
  dom f' ⊆ dom m' /\ (forall k r, f' !! k = Some r -> fts_id r = None).
Proof.
  intros Hex Hs [Hd Hn]. destruct s; simpl in Hex.
  - destruct (sql.next_rowid pick m); [|discriminate]. injection Hex as _ Hm' Hf'; subst m' f'.
    split; [rewrite dom_insert_L; set_solver|exact Hn].
  - destruct (f !! rowid) eqn:Hlk; [discriminate|]. injection Hex as _ Hm' Hf'; subst m' f'.
    split.
    { rewrite dom_insert_L. apply union_subseteq. split; [|exact Hd].
      now apply singleton_subseteq_l. }
    intros k r. rewrite lookup_insert. destruct (decide (rowid = k)).
    + intros [= <-]. reflexivity.
    + apply Hn.
  - injection Hex as _ Hm' Hf'; subst m' f'. split; [now rewrite dom_alter_L|exact Hn].
  - injection Hex as _ Hm' Hf'; subst m' f'. split; [now rewrite dom_alter_L|].
    intros k r. rewrite lookup_alter. destruct (decide (rowid = k)) as [->|].
    + destruct (f !! k) as [r0|] eqn:Hk; simpl; [|discriminate].
      intros [= <-]. simpl. eapply Hn; eauto.
    + apply Hn.
  - injection Hex as _ Hm' Hf'; subst m' f'. split; [now rewrite dom_alter_L|exact Hn].
  - injection Hex as _ Hm' Hf'; subst m' f'. split; [now rewrite dom_fmap_L|].
    intros k r. rewrite lookup_fmap.
    destruct (f !! k) as [r0|] eqn:Hk; simpl; [|discriminate].
    intros [= <-]. case_decide; simpl; eapply Hn; eauto.
Qed.

Section Invariant.

Variable E : Env.

Lemma DB_Exec_index_inv s w :
  match s with InsertFts rowid _ _ _ => rowid ∈ dom (media w) | _ => True end ->
  index_inv w -> index_inv (snd (DB_Exec E s w)).
Proof.
  intros Hs Hinv. unfold DB_Exec, bind, emit, get, ret, next_tick, set_tables.
  cbn -[sql.exec].
  destruct (DB_Exec_err E s); [exact Hinv|]. cbn -[sql.exec].
  destruct (sql.exec (CURRENT_TIMESTAMP E (tick w)) (sqlite_random_rowid E (tick w)) s
              (media w, media_fts w))
    as [[id [m' f']]|err] eqn:Hex; [|exact Hinv].
  eapply exec_index_inv in Hex; [exact Hex|exact Hs|exact Hinv].
Qed.

Lemma preserves_DB_Exec s :
  match s with InsertFts _ _ _ _ => False | _ => True end ->
  preserves index_inv (DB_Exec E s).
Proof. intros Hs w. apply DB_Exec_index_inv. destruct s; auto; contradiction. Qed.

Ltac pres_with tac :=
  repeat first
    [ tac
    | apply preserves_ret | apply preserves_emit | apply preserves_get
    | apply preserves_set_files | apply preserves_push_sent | apply preserves_next_tick
    | apply preserves_DB_Exec; exact I
    | apply preserves_bind; [|intros]
    | match goal with
      | |- preserves _ (match ?x with _ => _ end) => destruct x
      | |- preserves _ (if ?x then _ else _) => destruct x
      | |- preserves _ (let '(_, _) := ?x in _) => destruct x
      end ].

Ltac pres := pres_with fail.

Lemma preserves_processImage id path : preserves index_inv (processImage E id path).
Proof. unfold processImage, imaging_Open, imaging_Save, extractOCR, log_Printf. pres. Qed.

Lemma preserves_processMedia id path mimeType :
  preserves index_inv (processMedia E id path mimeType).
Proof.
  unfold processMedia, processVideoOrGif, os_Remove, log_Printf.
  pres_with ltac:(apply preserves_processImage).
Qed.

Lemma preserves_updateTagsHandler idStr tags :
  preserves index_inv (updateTagsHandler E idStr tags).
Proof. unfold updateTagsHandler, log_Printf. pres. Qed.

Lemma preserves_getMedia query : preserves index_inv (getMedia E query).
Proof. unfold getMedia, DB_Query_media, DB_Query_rowids, log_Printf. pres. Qed.

Lemma preserves_ingest path mimeType sizeBytes tags :
  preserves index_inv (ingest E path mimeType sizeBytes tags).
Proof.
  intros w Hinv. unfold ingest. unfold bind at 1.
  pose proof (DB_Exec_index_inv (InsertMedia path mimeType sizeBytes tags "processing") w I Hinv)
    as H1.
  assert (Hid : forall id w1, DB_Exec E (InsertMedia path mimeType sizeBytes tags "processing") w
                  = (inl id, w1) -> id ∈ dom (media w1)).
  { intros id w1. unfold DB_Exec, bind, emit, get, ret, next_tick, set_tables.
    cbn [fst snd media media_fts files sent trace tick].
    destruct (DB_Exec_err E _); [discriminate|]. simpl.
    destruct (sql.next_rowid _ (media w)); simpl; [|discriminate].
    intros [= <- <-]. simpl. rewrite dom_insert_L. set_solver. }
  destruct (DB_Exec E (InsertMedia _ _ _ _ _) w) as [[id|err] w1]; [|exact H1].
  specialize (Hid id w1 eq_refl). cbn [snd] in H1. unfold LastInsertId.
  unfold bind at 1 2.
  pose proof (DB_Exec_index_inv (InsertFts id "" tags path) w1 Hid H1) as H2.
  destruct (DB_Exec E (InsertFts _ _ _ _) w1) as [r w2]. cbn [snd] in H2.
  revert H2. generalize w2.
  change (preserves index_inv
            ((match r with
              | inl _ => ret tt
              | inr err => log_Printf "Failed to insert FTS: %v" [AErr err]
              end) ;;
             jobQueue_send {| job_ID := id; job_Path := path; job_MimeType := mimeType |} ;;
             ret (None : option Response))).
  unfold jobQueue_send, log_Printf. pres.
Qed.

Lemma preserves_uploadFiles fhs tags : preserves index_inv (uploadFiles E fhs tags).
Proof.
  induction fhs as [|file rest IH]; cbn [uploadFiles].
  - apply preserves_ret.
  - unfold SaveUploadedFile, os_Stat.
    pres_with ltac:(first [apply preserves_ingest | apply IH]).
Qed.

Lemma preserves_uploadHandler c : preserves index_inv (uploadHandler E c).
Proof. unfold uploadHandler. pres_with ltac:(apply preserves_uploadFiles). Qed.

(** Every world the program gets to has its index rows within the
    records, with column [id] NULL. *)
Lemma reachable_index_inv w : reachable E w -> index_inv w.
Proof.
  induction 1 as [fs|w c _ IH|w k job _ IH _|w idStr tags _ IH|w query _ IH].
  - split.
    + unfold index_within_records. simpl. set_solver.
    + intros k r. simpl. rewrite lookup_empty. discriminate.
  - now apply preserves_uploadHandler.
  - unfold worker, log_Printf. revert IH. generalize w.
    change (preserves index_inv
      (emit (EvLog "Worker %d processing job for media ID %d" [AInt k; AInt (job_ID job)]) ;;
       processMedia E (job_ID job) (job_Path job) (job_MimeType job))).
    pres_with ltac:(apply preserves_processMedia).
  - now apply preserves_updateTagsHandler.
  - now apply preserves_getMedia.
Qed.

End Invariant.

(** ** Tag edits *)

Section Tags.

Variable E : Env.

(** C10: an id that parses and has no record: the handler answers 200
    with the submitted tags, no row of [media] and no row of the index
    changes, and the answer is the one it gives in every world, with the
    record or without. *)
Theorem tag_update_of_unknown_id idStr id tags w :
  strconv.ParseInt idStr = Some id ->
  media w !! id = None ->
  index_within_records w ->
  DB_Exec_err E (UpdateMediaTags tags id) = None ->
  let out := updateTagsHandler E idStr tags w in
  fst out = c_String StatusOK tags /\
  media (snd out) = media w /\
  media_fts (snd out) = media_fts w /\
  (forall w0, fst (updateTagsHandler E idStr tags w0) = c_String StatusOK tags).
Proof.
  intros Hp Hnone Hinv Hdb. cbv zeta. unfold updateTagsHandler. rewrite Hp.
  assert (Hf : media_fts w !! id = None).
  { apply not_elem_of_dom. intros Hin. apply Hinv in Hin.
    apply elem_of_dom in Hin as [r Hr]. congruence. }
  run. rewrite Hdb. simpl.
  split; [|split; [|split]].
  - destruct (DB_Exec_err E (UpdateFtsTags tags id)); reflexivity.
  - destruct (DB_Exec_err E (UpdateFtsTags tags id)); simpl;
      apply alter_id; intros r Hr; congruence.
  - destruct (DB_Exec_err E (UpdateFtsTags tags id)); simpl; [reflexivity|].
    apply alter_id; intros r Hr; congruence.
  - intros w0. destruct (DB_Exec_err E (UpdateFtsTags tags id)); reflexivity.
Qed.

End Tags.

(** ** The job queue *)

Lemma sends_nothing_ret {A : Type} (a : A) : sends_nothing (ret a).
Proof. intros w. reflexivity. Qed.

Lemma sends_nothing_bind {A B : Type} (m : M A) (k : A -> M B) :
  sends_nothing m -> (forall a, sends_nothing (k a)) -> sends_nothing (bind m k).
Proof.
  intros Hm Hk w. unfold bind. specialize (Hm w).
  destruct (m w) as [a w1]. simpl in Hm. now rewrite Hk.
Qed.

Lemma sends_nothing_emit e : sends_nothing (emit e).
Proof. intros w. reflexivity. Qed.

Lemma sends_nothing_get {A : Type} (proj : World -> A) : sends_nothing (get proj).
Proof. intros w. reflexivity. Qed.

Lemma sends_nothing_set_files fs : sends_nothing (set_files fs).
Proof. intros w. reflexivity. Qed.

Lemma sends_nothing_set_tables db : sends_nothing (set_tables db).
Proof. intros w. reflexivity. Qed.

Lemma sends_nothing_next_tick : sends_nothing next_tick.
Proof. intros w. reflexivity. Qed.

Ltac quiet_with tac :=
  repeat first
    [ tac
    | apply sends_nothing_ret | apply sends_nothing_emit | apply sends_nothing_get
    | apply sends_nothing_set_files | apply sends_nothing_set_tables
    | apply sends_nothing_next_tick
    | apply sends_nothing_bind; [|intros]
    | match goal with
      | |- sends_nothing (match ?x with _ => _ end) => destruct x
      | |- sends_nothing (if ?x then _ else _) => destruct x
      | |- sends_nothing (let '(_, _) := ?x in _) => destruct x
      end ].
Ltac quiet := quiet_with fail.

Section Queue.

Variable E : Env.

Lemma sends_nothing_DB_Exec s : sends_nothing (DB_Exec E s).
Proof. unfold DB_Exec. quiet. Qed.

Lemma sends_nothing_processImage id path : sends_nothing (processImage E id path).
Proof.
  unfold processImage, imaging_Open, imaging_Save, extractOCR, log_Printf.
  quiet_with ltac:(apply sends_nothing_DB_Exec).
Qed.

Lemma sends_nothing_worker workerID job : sends_nothing (worker E workerID job).
Proof.
  unfold worker, processMedia, processVideoOrGif, os_Remove, log_Printf.
  quiet_with ltac:(apply sends_nothing_processImage).
Qed.

Lemma sends_nothing_upload_to_send file tags :
  sends_nothing (jobQueue.upload_to_send E file tags).
Proof.
  unfold jobQueue.upload_to_send, SaveUploadedFile, os_Stat, LastInsertId, log_Printf.
  quiet_with ltac:(apply sends_nothing_DB_Exec).
Qed.

(** One round of the second loop of [uploadHandler] is [upload_to_send]
    and then the send. *)
Lemma uploadFiles_round file rest tags w :
  uploadFiles E (file :: rest) tags w =
    match jobQueue.upload_to_send E file tags w with
    | (inl resp, w1) => (resp, w1)
    | (inr job, w1) => uploadFiles E rest tags (snd (jobQueue_send job w1))
    end.
Proof.
  cbn [uploadFiles]. unfold jobQueue.upload_to_send, ingest, bind.
  destruct (next_tick w) as [t w1].
  destruct (SaveUploadedFile E file _ w1) as [[err|] w2]; [reflexivity|].
  destruct (os_Stat _ w2) as [[sizeBytes|err] w3]; [|reflexivity].
  destruct (DB_Exec E (InsertMedia _ _ _ _ _) w3) as [[res|err] w4]; [|reflexivity].
  unfold LastInsertId.
  destruct (DB_Exec E (InsertFts _ _ _ _) w4) as [[r1|err] w5];
    unfold log_Printf, jobQueue_send, emit, push_sent, bind, ret; reflexivity.
Qed.

(** [uploadHandler] is [accept] and then the second loop. *)
Lemma uploadHandler_accept c w :
  uploadHandler E c w =
    match jobQueue.accept E c with
    | jobQueue.Running fhs tags => uploadFiles E fhs tags w
    | jobQueue.Sending _ _ _ => uploadHandler E c w
    | jobQueue.Answered resp => (resp, w)
    end.
Proof.
  unfold uploadHandler, jobQueue.accept.
  destruct (MultipartForm c) as [fhs|err]; [|reflexivity].
  destruct (length fhs =? 0)%nat; [reflexivity|].
  destruct (validate E fhs); reflexivity.
Qed.

Lemma accept_not_sending c job rest tags :
  jobQueue.accept E c <> jobQueue.Sending job rest tags.
Proof.
  unfold jobQueue.accept.
  destruct (MultipartForm c) as [fhs|err]; [|discriminate].
  destruct (length fhs =? 0)%nat; [discriminate|].
  destruct (validate E fhs); discriminate.
Qed.

Lemma sent_jobQueue_send job w : sent (snd (jobQueue_send job w)) = sent w ++ [job].
Proof. reflexivity. Qed.

Lemma queue_inv_init w0 : jobQueue.queue_inv w0 (jobQueue.init w0).
Proof.
  unfold jobQueue.queue_inv, jobQueue.init, jobQueue.make, jobQueue.capacity. simpl.
  split; [lia|]. split; [congruence|]. split; [now rewrite app_nil_r|].
  split; [constructor|]. split.
  - intros g job H. inversion H.
  - intros g job rest tags H. discriminate H.
Qed.

(** Giving a handler that is not parked a state in which it is not
    parked leaves the parked senders what they were. *)
Lemma parked_set_running (hs : list jobQueue.Handler) (q : list (nat * ProcessingJob)) h g :
  (forall job rest tags, hs !! h <> Some (jobQueue.Sending job rest tags)) ->
  (forall job rest tags, g <> jobQueue.Sending job rest tags) ->
  (forall g' job, (g', job) ∈ q ->
     exists rest tags, hs !! g' = Some (jobQueue.Sending job rest tags)) ->
  (forall g' job rest tags, hs !! g' = Some (jobQueue.Sending job rest tags) ->
     (g', job) ∈ q) ->
  (forall g' job, (g', job) ∈ q ->
     exists rest tags, <[h := g]> hs !! g' = Some (jobQueue.Sending job rest tags)) /\
  (forall g' job rest tags, <[h := g]> hs !! g' = Some (jobQueue.Sending job rest tags) ->
     (g', job) ∈ q).
Proof.
  intros Hh Hg H5 H6. split.
  - intros g' job Hin. destruct (H5 _ _ Hin) as (rest & tags & Hl).
    exists rest, tags. rewrite list_lookup_insert_ne; [exact Hl|].
    intros ->. exact (Hh _ _ _ Hl).
  - intros g' job rest tags Hl. destruct (decide (h = g')) as [->|Hne].
    + destruct (decide (g' < length hs)%nat) as [Hlt|Hge].
      * rewrite list_lookup_insert_eq in Hl by exact Hlt.
        injection Hl as Hl. exfalso. exact (Hg _ _ _ Hl).
      * rewrite list_insert_ge in Hl by lia. eauto.
    + rewrite list_lookup_insert_ne in Hl by exact Hne. eauto.
Qed.

Lemma queue_inv_step w0 s op :
  jobQueue.queue_inv w0 s -> jobQueue.queue_inv w0 (jobQueue.step E s op).
Proof.
  intros (Hle & Hfull & Harr & Hnd & H5 & H6).
  destruct s as [w [b q] hs d].
  unfold jobQueue.queue_inv in *.
  cbn [jobQueue.world jobQueue.chan jobQueue.buf jobQueue.sendq jobQueue.handlers
       jobQueue.delivered] in *.
  destruct op as [c|h|k]; cbn [jobQueue.step jobQueue.world jobQueue.chan
    jobQueue.buf jobQueue.sendq jobQueue.handlers jobQueue.delivered].
  - (* a request arrives *)
    do 4 (split; [assumption|]). split.
    + intros g job Hin. destruct (H5 _ _ Hin) as (rest & tags & Hl).
      exists rest, tags. rewrite lookup_app_l; [exact Hl|].
      now apply lookup_lt_Some in Hl.
    + intros g job rest tags Hl. apply lookup_app_Some in Hl as [Hl|[_ Hl]]; [eauto|].
      apply list_lookup_singleton_Some in Hl as [_ Hl].
      exfalso. exact (accept_not_sending _ _ _ _ Hl).
  - (* a handler runs one round *)
    destruct (hs !! h) as [[[|file rest] tags|job rest tags|resp]|] eqn:Hh;
      [| |now repeat split..].
    + unfold jobQueue.set_handler;
        cbn [jobQueue.world jobQueue.chan jobQueue.buf jobQueue.sendq jobQueue.handlers
             jobQueue.delivered].
      do 4 (split; [assumption|]).
      apply parked_set_running;
          [intros ? ? ?; rewrite Hh; discriminate|intros; discriminate|assumption..].
    + pose proof (sends_nothing_upload_to_send file tags w) as Hs.
      destruct (jobQueue.upload_to_send E file tags w) as [[resp|job] w1];
        cbn [snd] in Hs.
      * unfold jobQueue.set_handler;
          cbn [jobQueue.world jobQueue.chan jobQueue.buf jobQueue.sendq jobQueue.handlers
               jobQueue.delivered].
        split; [assumption|]. split; [assumption|].
        split; [now rewrite Hs|]. split; [assumption|].
        apply parked_set_running;
          [intros ? ? ?; rewrite Hh; discriminate|intros; discriminate|assumption..].
      * unfold jobQueue.send. cbn [jobQueue.buf jobQueue.sendq].
        destruct (Nat.ltb_spec (length b) jobQueue.capacity) as [Hlt|Hge];
          unfold jobQueue.set_handler;
          cbn [jobQueue.world jobQueue.chan jobQueue.buf jobQueue.sendq jobQueue.handlers
               jobQueue.delivered];
          rewrite sent_jobQueue_send, Hs.
        -- assert (q = []) as ->.
           { destruct q; [reflexivity|]. exfalso.
             assert (length b = jobQueue.capacity) by (apply Hfull; congruence). lia. }
           split; [rewrite length_app; simpl; lia|].
           split; [congruence|].
           split; [rewrite Harr; simpl; rewrite !app_nil_r, <- !app_assoc; reflexivity|].
           split; [constructor|].
           apply parked_set_running;
          [intros ? ? ?; rewrite Hh; discriminate|intros; discriminate|assumption..].
        -- split; [exact Hle|]. split; [intros _; lia|].
           split; [rewrite Harr, map_app; simpl; rewrite <- !app_assoc; reflexivity|].
           assert (Hfresh : h ∉ map fst q).
           { intros Hin. apply list_elem_of_fmap in Hin as ([g job'] & -> & Hin).
             destruct (H5 _ _ Hin) as (r & t & Hl). simpl in *. congruence. }
           split.
           { rewrite map_app. simpl. apply NoDup_app. split; [exact Hnd|].
             split; [|apply NoDup_singleton].
             intros x Hx Hx'. apply list_elem_of_singleton in Hx'. now subst. }
           split.
           { intros g job' Hin. apply elem_of_app in Hin as [Hin|Hin].
             - destruct (H5 _ _ Hin) as (r & t & Hl). exists r, t.
               rewrite list_lookup_insert_ne; [exact Hl|]. intros ->. congruence.
             - apply list_elem_of_singleton in Hin. injection Hin as -> ->.
               exists rest, tags. apply list_lookup_insert_eq.
               now apply lookup_lt_Some in Hh. }
           { intros g job' r t Hl. apply elem_of_app.
             destruct (decide (h = g)) as [->|Hne].
             - rewrite list_lookup_insert_eq in Hl by (now apply lookup_lt_Some in Hh).
               injection Hl as -> -> ->. right. apply list_elem_of_singleton. reflexivity.
             - rewrite list_lookup_insert_ne in Hl by exact Hne. left. eauto. }
  - (* a worker receives *)
    destruct (k <? jobQueue.numWorkers)%nat; [|now repeat split].
    unfold jobQueue.recv. cbn [jobQueue.buf jobQueue.sendq].
    destruct b as [|job rest]; [now repeat split|].
    destruct q as [|[g parked] q];
      cbn [jobQueue.world jobQueue.chan jobQueue.buf jobQueue.sendq jobQueue.handlers
           jobQueue.delivered];
      rewrite sends_nothing_worker.
    + split; [simpl in Hle; lia|]. split; [congruence|].
      split; [rewrite Harr, map_app; simpl; rewrite <- !app_assoc; reflexivity|].
      split; [constructor|]. split; assumption.
    + assert (Hc : length (job :: rest) = jobQueue.capacity) by (apply Hfull; congruence).
      simpl in Hc.
      split; [rewrite length_app; simpl; lia|].
      split; [intros _; rewrite length_app; simpl; lia|].
      split; [rewrite Harr, map_app; simpl; rewrite <- !app_assoc; reflexivity|].
      simpl in Hnd. apply NoDup_cons in Hnd as [Hg Hnd].
      split; [exact Hnd|].
      destruct (H5 g parked) as (r & t & Hl); [left|].
      rewrite Hl. split.
      * intros g' job' Hin. destruct (H5 g' job') as (r' & t' & Hl'); [now right|].
        exists r', t'. rewrite list_lookup_insert_ne; [exact Hl'|].
        intros ->. apply Hg. apply list_elem_of_fmap. now exists (g', job').
      * intros g' job' r' t' Hl'. destruct (decide (g = g')) as [->|Hne].
        -- rewrite list_lookup_insert_eq in Hl' by (now apply lookup_lt_Some in Hl).
           discriminate Hl'.
        -- rewrite list_lookup_insert_ne in Hl' by exact Hne.
           apply H6 in Hl'. apply elem_of_cons in Hl' as [Heq|Hin]; [|exact Hin].
           congruence.
Qed.

Lemma queue_inv_foldl w0 ops s :
  jobQueue.queue_inv w0 s -> jobQueue.queue_inv w0 (foldl (jobQueue.step E) s ops).
Proof.
  revert s. induction ops as [|op ops IH]; intros s Hs; simpl; [exact Hs|].
  apply IH. now apply queue_inv_step.
Qed.

Lemma queue_inv_run w0 ops : jobQueue.queue_inv w0 (jobQueue.run E w0 ops).
Proof. apply queue_inv_foldl, queue_inv_init. Qed.


(** A handler parked in its send does not move on its own. *)
Lemma advance_parked s h job rest tags :
  jobQueue.handlers s !! h = Some (jobQueue.Sending job rest tags) ->
  jobQueue.step E s (jobQueue.Advance h) = s.
Proof. intros Hh. cbn [jobQueue.step]. now rewrite Hh. Qed.

(** Nor does anything but a receive move it, or the buffer it waits on. *)
Lemma parked_until_receive w0 s h job rest tags op :
  jobQueue.queue_inv w0 s ->
  jobQueue.handlers s !! h = Some (jobQueue.Sending job rest tags) ->
  jobQueue.is_receive op = false ->
  jobQueue.handlers (jobQueue.step E s op) !! h = Some (jobQueue.Sending job rest tags) /\
  jobQueue.buf (jobQueue.chan (jobQueue.step E s op)) = jobQueue.buf (jobQueue.chan s) /\
  jobQueue.delivered (jobQueue.step E s op) = jobQueue.delivered s.
Proof.
  intros (Hle & Hfull & Harr & Hnd & H5 & H6) Hh Hop.
  assert (Hc : length (jobQueue.buf (jobQueue.chan s)) = jobQueue.capacity).
  { apply Hfull. apply H6 in Hh. intros Hq. rewrite Hq in Hh. inversion Hh. }
  destruct op as [c|h'|k]; [| |discriminate Hop]; cbn [jobQueue.step].
  - cbn [jobQueue.handlers jobQueue.chan jobQueue.delivered].
    split; [|split; reflexivity].
    rewrite lookup_app_l; [exact Hh|]. now apply lookup_lt_Some in Hh.
  - destruct (jobQueue.handlers s !! h') as [[[|file rest'] tags'|job' rest' tags'|resp]|]
      eqn:Hh'; [| |now repeat split..].
    + unfold jobQueue.set_handler. cbn [jobQueue.handlers jobQueue.chan jobQueue.delivered].
      split; [|split; reflexivity].
      rewrite list_lookup_insert_ne; [exact Hh|]. intros ->. congruence.
    + assert (Hne : h' <> h) by (intros ->; congruence).
      destruct (jobQueue.upload_to_send E file tags' (jobQueue.world s)) as [[resp|job'] w1].
      * unfold jobQueue.set_handler.
        cbn [jobQueue.handlers jobQueue.chan jobQueue.delivered].
        split; [|split; reflexivity].
        rewrite list_lookup_insert_ne; [exact Hh|exact Hne].
      * unfold jobQueue.send. rewrite Hc, Nat.ltb_irrefl.
        unfold jobQueue.set_handler.
        cbn [jobQueue.handlers jobQueue.chan jobQueue.buf jobQueue.delivered].
        split; [|split; reflexivity].
        rewrite list_lookup_insert_ne; [exact Hh|exact Hne].
Qed.

(** A handler whose round reaches the send: the send is recorded, and
    the job enters the buffer if there is room; if there is none the
    handler is parked behind those parked before it. *)
Lemma advance_reaches_send s h file rest tags job :
  jobQueue.handlers s !! h = Some (jobQueue.Running (file :: rest) tags) ->
  fst (jobQueue.upload_to_send E file tags (jobQueue.world s)) = inr job ->
  let c := jobQueue.chan s in
  let s1 := jobQueue.step E s (jobQueue.Advance h) in
  sent (jobQueue.world s1) = sent (jobQueue.world s) ++ [job] /\
  jobQueue.delivered s1 = jobQueue.delivered s /\
  if (length (jobQueue.buf c) <? 100)%nat
  then
    jobQueue.chan s1 =
      {| jobQueue.buf := jobQueue.buf c ++ [job]; jobQueue.sendq := jobQueue.sendq c |} /\
    jobQueue.handlers s1 !! h = Some (jobQueue.Running rest tags)
  else
    jobQueue.chan s1 =
      {| jobQueue.buf := jobQueue.buf c;
         jobQueue.sendq := jobQueue.sendq c ++ [(h, job)] |} /\
    jobQueue.handlers s1 !! h = Some (jobQueue.Sending job rest tags).
Proof.
  intros Hh Hsend. cbv zeta. cbn [jobQueue.step]. rewrite Hh.
  pose proof (sends_nothing_upload_to_send file tags (jobQueue.world s)) as Hs.
  destruct (jobQueue.upload_to_send E file tags (jobQueue.world s)) as [r w1].
  cbn [fst snd] in Hsend, Hs. subst r.
  apply lookup_lt_Some in Hh.
  unfold jobQueue.send. change jobQueue.capacity with 100%nat.
  destruct (length (jobQueue.buf (jobQueue.chan s)) <? 100)%nat;
    unfold jobQueue.set_handler;
    cbn [jobQueue.world jobQueue.chan jobQueue.handlers jobQueue.delivered];
    rewrite sent_jobQueue_send, Hs, list_lookup_insert_eq by exact Hh;
    repeat split.
Qed.

(** A receive while a sender is parked: the worker gets the head of the
    buffer and processes it, and the sender parked first puts its job at
    the tail and goes on with its loop. *)
Lemma receive_releases w0 s k h job q :
  jobQueue.queue_inv w0 s ->
  (k < jobQueue.numWorkers)%nat ->
  jobQueue.sendq (jobQueue.chan s) = (h, job) :: q ->
  exists head b rest tags,
    jobQueue.buf (jobQueue.chan s) = head :: b /\
    length b = 99%nat /\
    jobQueue.handlers s !! h = Some (jobQueue.Sending job rest tags) /\
    let s2 := jobQueue.step E s (jobQueue.Receive k) in
    jobQueue.chan s2 = {| jobQueue.buf := b ++ [job]; jobQueue.sendq := q |} /\
    jobQueue.delivered s2 = jobQueue.delivered s ++ [(k, head)] /\
    jobQueue.handlers s2 !! h = Some (jobQueue.Running rest tags) /\
    jobQueue.world s2 = snd (worker E (Z.of_nat k) head (jobQueue.world s)).
Proof.
  intros (Hle & Hfull & Harr & Hnd & H5 & H6) Hk Hq.
  assert (Hc : length (jobQueue.buf (jobQueue.chan s)) = jobQueue.capacity)
    by (apply Hfull; congruence).
  destruct (H5 h job) as (rest & tags & Hh); [rewrite Hq; left|].
  destruct (jobQueue.buf (jobQueue.chan s)) as [|head b] eqn:Hb; [discriminate Hc|].
  exists head, b, rest, tags. split; [reflexivity|].
  split; [unfold jobQueue.capacity in Hc; simpl in Hc; lia|].
  split; [exact Hh|].
  cbv zeta. cbn [jobQueue.step]. apply Nat.ltb_lt in Hk. rewrite Hk.
  unfold jobQueue.recv. rewrite Hb, Hq, Hh.
  cbn [jobQueue.world jobQueue.chan jobQueue.handlers jobQueue.delivered].
  repeat split. apply list_lookup_insert_eq. now apply lookup_lt_Some in Hh.
Qed.

(** A receive from a buffer that is not empty delivers its head. *)
Lemma receive_takes_head s k head b :
  (k < jobQueue.numWorkers)%nat ->
  jobQueue.buf (jobQueue.chan s) = head :: b ->
  let s2 := jobQueue.step E s (jobQueue.Receive k) in
  jobQueue.delivered s2 = jobQueue.delivered s ++ [(k, head)] /\
  jobQueue.world s2 = snd (worker E (Z.of_nat k) head (jobQueue.world s)).
Proof.
  intros Hk Hb. cbv zeta. cbn [jobQueue.step]. apply Nat.ltb_lt in Hk. rewrite Hk.
  unfold jobQueue.recv. rewrite Hb.
  destruct (jobQueue.sendq (jobQueue.chan s)) as [|[g parked] q]; split; reflexivity.
Qed.

(** C9: on the server made of the upload handlers, the channel of
    capacity 100 and the workers, after any sequence of moves: the buffer
    holds at most 100 jobs; the jobs whose send began (the program's own
    record of its sends) are, in that order, the jobs delivered, then the
    jobs buffered, then the jobs of the parked handlers, so no job is
    lost and delivery follows arrival; handlers are parked only while
    100 jobs are buffered, and the parked handlers are those that stand
    in their send, each once; a handler whose round reaches the
    send puts its job at the tail of the buffer and goes on if fewer than
    100 jobs are buffered, and otherwise is parked with its job behind
    the handlers parked before it; a parked handler finds the buffer
    full, does not move on its own, and no move but a receive changes
    its state, the buffer or the deliveries; a receive delivers the head
    of the buffer to the worker, which processes it; and if handlers are
    parked, the one parked first puts its job at the tail of the buffer
    and goes on with its loop. *)
Theorem queue_blocks_when_full_and_keeps_order (w0 : World) (ops : list jobQueue.Op) :
  let s := jobQueue.run E w0 ops in
  let c := jobQueue.chan s in
  jobQueue.capacity = 100%nat /\
  (length (jobQueue.buf c) <= 100)%nat /\
  sent (jobQueue.world s) =
    sent w0 ++ map snd (jobQueue.delivered s) ++ jobQueue.buf c ++
    map snd (jobQueue.sendq c) /\
  (jobQueue.sendq c <> [] -> length (jobQueue.buf c) = 100%nat) /\
  NoDup (map fst (jobQueue.sendq c)) /\
  (forall h job,
     (h, job) ∈ jobQueue.sendq c <->
     exists rest tags, jobQueue.handlers s !! h = Some (jobQueue.Sending job rest tags)) /\
  (forall h file rest tags job,
     jobQueue.handlers s !! h = Some (jobQueue.Running (file :: rest) tags) ->
     fst (jobQueue.upload_to_send E file tags (jobQueue.world s)) = inr job ->
     let s1 := jobQueue.step E s (jobQueue.Advance h) in
     sent (jobQueue.world s1) = sent (jobQueue.world s) ++ [job] /\
     jobQueue.delivered s1 = jobQueue.delivered s /\
     if (length (jobQueue.buf c) <? 100)%nat
     then
       jobQueue.chan s1 =
         {| jobQueue.buf := jobQueue.buf c ++ [job];
            jobQueue.sendq := jobQueue.sendq c |} /\
       jobQueue.handlers s1 !! h = Some (jobQueue.Running rest tags)
     else
       jobQueue.chan s1 =
         {| jobQueue.buf := jobQueue.buf c;
            jobQueue.sendq := jobQueue.sendq c ++ [(h, job)] |} /\
       jobQueue.handlers s1 !! h = Some (jobQueue.Sending job rest tags)) /\
  (forall h job rest tags,
     jobQueue.handlers s !! h = Some (jobQueue.Sending job rest tags) ->
     length (jobQueue.buf c) = 100%nat /\
     (h, job) ∈ jobQueue.sendq c /\
     jobQueue.step E s (jobQueue.Advance h) = s /\
     forall op, jobQueue.is_receive op = false ->
       let s1 := jobQueue.step E s op in
       jobQueue.handlers s1 !! h = Some (jobQueue.Sending job rest tags) /\
       jobQueue.buf (jobQueue.chan s1) = jobQueue.buf c /\
       jobQueue.delivered s1 = jobQueue.delivered s) /\
  (forall k head b,
     (k < jobQueue.numWorkers)%nat ->
     jobQueue.buf c = head :: b ->
     let s2 := jobQueue.step E s (jobQueue.Receive k) in
     jobQueue.delivered s2 = jobQueue.delivered s ++ [(k, head)] /\
     jobQueue.world s2 = snd (worker E (Z.of_nat k) head (jobQueue.world s))) /\
  (forall k h job q,
     (k < jobQueue.numWorkers)%nat ->
     jobQueue.sendq c = (h, job) :: q ->
     exists head b rest tags,
       jobQueue.buf c = head :: b /\
       length b = 99%nat /\
       jobQueue.handlers s !! h = Some (jobQueue.Sending job rest tags) /\
       let s2 := jobQueue.step E s (jobQueue.Receive k) in
       jobQueue.chan s2 = {| jobQueue.buf := b ++ [job]; jobQueue.sendq := q |} /\
       jobQueue.delivered s2 = jobQueue.delivered s ++ [(k, head)] /\
       jobQueue.handlers s2 !! h = Some (jobQueue.Running rest tags) /\
       jobQueue.world s2 = snd (worker E (Z.of_nat k) head (jobQueue.world s))).
Proof.
  cbv zeta. pose proof (queue_inv_run w0 ops) as Hinv.
  set (s := jobQueue.run E w0 ops) in *.
  pose proof Hinv as (Hle & Hfull & Harr & Hnd & H5 & H6).
  split; [reflexivity|]. split; [exact Hle|]. split; [exact Harr|].
  split; [exact Hfull|]. split; [exact Hnd|].
  split; [intros h job; split; [apply H5|intros (rest & tags & Hh); eauto]|].
  split; [|split; [|split]].
  - intros h file rest tags job Hh Hsend.
    exact (advance_reaches_send s h file rest tags job Hh Hsend).
  - intros h job rest tags Hh.
    assert (Hin : (h, job) ∈ jobQueue.sendq (jobQueue.chan s)) by eauto.
    split.
    { apply Hfull. intros Hq. rewrite Hq in Hin. inversion Hin. }
    split; [exact Hin|].
    split; [exact (advance_parked s h job rest tags Hh)|].
    intros op Hop. exact (parked_until_receive w0 s h job rest tags op Hinv Hh Hop).
  - intros k head b Hk Hb. exact (receive_takes_head s k head b Hk Hb).
  - intros k h job q Hk Hq. exact (receive_releases w0 s k h job q Hinv Hk Hq).
Qed.

(** While the buffer has room the server serves a request as
    [uploadFiles] does: the rounds of a handler, taken one by one, end
    in the world and the response of the loop, with the jobs it sent at
    the tail of the buffer. *)
Lemma advance_answered s h resp n :
  jobQueue.handlers s !! h = Some (jobQueue.Answered resp) ->
  foldl (jobQueue.step E) s (replicate n (jobQueue.Advance h)) = s.
Proof.
  intros Hh. induction n as [|n IH]; [reflexivity|].
  assert (Hstep : jobQueue.step E s (jobQueue.Advance h) = s)
    by (cbn [jobQueue.step]; now rewrite Hh).
  cbn [replicate foldl]. rewrite Hstep. exact IH.
Qed.

Lemma rounds_as_uploadFiles fhs tags s h :
  jobQueue.handlers s !! h = Some (jobQueue.Running fhs tags) ->
  (length (jobQueue.buf (jobQueue.chan s)) + length fhs <= jobQueue.capacity)%nat ->
  let s' := foldl (jobQueue.step E) s (replicate (S (length fhs)) (jobQueue.Advance h)) in
  let out := uploadFiles E fhs tags (jobQueue.world s) in
  jobQueue.world s' = snd out /\
  jobQueue.handlers s' !! h = Some (jobQueue.Answered (fst out)) /\
  jobQueue.delivered s' = jobQueue.delivered s /\
  jobQueue.sendq (jobQueue.chan s') = jobQueue.sendq (jobQueue.chan s) /\
  exists jobs,
    sent (snd out) = sent (jobQueue.world s) ++ jobs /\
    jobQueue.buf (jobQueue.chan s') = jobQueue.buf (jobQueue.chan s) ++ jobs.
Proof.
  revert s. induction fhs as [|file rest IH]; intros s Hh Hroom; cbv zeta.
  - cbn [length replicate foldl jobQueue.step]. rewrite Hh.
    unfold jobQueue.set_handler.
    cbn [jobQueue.world jobQueue.chan jobQueue.handlers jobQueue.delivered uploadFiles].
    split; [reflexivity|]. split.
    { apply list_lookup_insert_eq. now apply lookup_lt_Some in Hh. }
    split; [reflexivity|]. split; [reflexivity|].
    exists []. simpl. now rewrite !app_nil_r.
  - cbn [length] in *. rewrite uploadFiles_round.
    change (replicate (S (S (length rest))) (jobQueue.Advance h))
      with (jobQueue.Advance h :: replicate (S (length rest)) (jobQueue.Advance h)).
    cbn [foldl]. cbn [jobQueue.step]. rewrite Hh.
    pose proof (sends_nothing_upload_to_send file tags (jobQueue.world s)) as Hs.
    pose proof (lookup_lt_Some _ _ _ Hh) as Hlt.
    destruct (jobQueue.upload_to_send E file tags (jobQueue.world s)) as [[resp|job] w1];
      cbn [snd] in Hs.
    + rewrite (advance_answered _ h resp).
      2:{ unfold jobQueue.set_handler. cbn [jobQueue.handlers].
          now apply list_lookup_insert_eq. }
      unfold jobQueue.set_handler.
      cbn [jobQueue.world jobQueue.chan jobQueue.handlers jobQueue.delivered fst snd].
      split; [reflexivity|]. split; [now apply list_lookup_insert_eq|].
      split; [reflexivity|]. split; [reflexivity|].
      exists []. rewrite Hs, !app_nil_r. split; reflexivity.
    + unfold jobQueue.send.
      destruct (Nat.ltb_spec (length (jobQueue.buf (jobQueue.chan s))) jobQueue.capacity)
        as [Hroom'|Hfull]; [|exfalso; lia].
      match goal with |- context [foldl _ ?x _] => set (s1 := x) end.
      assert (Hh1 : jobQueue.handlers s1 !! h = Some (jobQueue.Running rest tags)).
      { subst s1. unfold jobQueue.set_handler. cbn [jobQueue.handlers].
        now apply list_lookup_insert_eq. }
      assert (Hroom1 : (length (jobQueue.buf (jobQueue.chan s1)) + length rest
                        <= jobQueue.capacity)%nat).
      { subst s1. unfold jobQueue.set_handler. cbn [jobQueue.chan jobQueue.buf].
        rewrite length_app. simpl. lia. }
      destruct (IH s1 Hh1 Hroom1) as (Hw & Hr & Hd & Hq & jobs & Hsent & Hbuf).
      assert (Hw1 : jobQueue.world s1 = snd (jobQueue_send job w1)) by reflexivity.
      rewrite Hw1 in *.
      split; [exact Hw|]. split; [exact Hr|].
      split; [exact Hd|]. split; [exact Hq|].
      exists (job :: jobs). split.
      * rewrite Hsent, sent_jobQueue_send, Hs, <- app_assoc. reflexivity.
      * rewrite Hbuf. subst s1. unfold jobQueue.set_handler.
        cbn [jobQueue.chan jobQueue.buf]. rewrite <- app_assoc. reflexivity.
Qed.

(** And so a whole request: where the buffer has room for its files,
    the handler ends as [uploadHandler] does. *)
Lemma served_as_uploadHandler c s :
  let h := length (jobQueue.handlers s) in
  let n := match MultipartForm c with inl fhs => length fhs | inr _ => 0%nat end in
  (length (jobQueue.buf (jobQueue.chan s)) + n <= jobQueue.capacity)%nat ->
  let s' := foldl (jobQueue.step E) s
              (jobQueue.Request c :: replicate (S n) (jobQueue.Advance h)) in
  let out := uploadHandler E c (jobQueue.world s) in
  jobQueue.world s' = snd out /\
  jobQueue.handlers s' !! h = Some (jobQueue.Answered (fst out)) /\
  jobQueue.delivered s' = jobQueue.delivered s /\
  exists jobs,
    sent (snd out) = sent (jobQueue.world s) ++ jobs /\
    jobQueue.buf (jobQueue.chan s') = jobQueue.buf (jobQueue.chan s) ++ jobs.
Proof.
  cbv zeta. intros Hroom. cbn [foldl].
  set (s0 := jobQueue.step E s (jobQueue.Request c)).
  assert (Hh : jobQueue.handlers s0 !! length (jobQueue.handlers s) =
               Some (jobQueue.accept E c)).
  { subst s0. cbn [jobQueue.step jobQueue.handlers].
    rewrite lookup_app_r by lia. now rewrite Nat.sub_diag. }
  assert (Hnone : forall resp,
            jobQueue.accept E c = jobQueue.Answered resp ->
            uploadHandler E c (jobQueue.world s) = (resp, jobQueue.world s) ->
            let s' := foldl (jobQueue.step E) s0
                        (replicate
                           (S match MultipartForm c with
                              | inl fhs => length fhs | inr _ => 0%nat end)
                           (jobQueue.Advance (length (jobQueue.handlers s)))) in
            jobQueue.world s' = snd (uploadHandler E c (jobQueue.world s)) /\
            jobQueue.handlers s' !! length (jobQueue.handlers s) =
              Some (jobQueue.Answered (fst (uploadHandler E c (jobQueue.world s)))) /\
            jobQueue.delivered s' = jobQueue.delivered s /\
            exists jobs,
              sent (snd (uploadHandler E c (jobQueue.world s))) =
                sent (jobQueue.world s) ++ jobs /\
              jobQueue.buf (jobQueue.chan s') = jobQueue.buf (jobQueue.chan s) ++ jobs).
  { intros resp Ha Hu. cbv zeta. rewrite Ha in Hh.
    rewrite (advance_answered _ _ resp) by exact Hh. rewrite Hu. cbn [fst snd].
    split; [reflexivity|]. split; [exact Hh|]. split; [reflexivity|].
    exists []. now rewrite !app_nil_r. }
  cbv zeta in Hnone.
  pose proof (uploadHandler_accept c (jobQueue.world s)) as Hu.
  unfold jobQueue.accept in Hh, Hnone, Hu.
  destruct (MultipartForm c) as [fhs|err]; [|now apply (Hnone _ eq_refl)].
  destruct (length fhs =? 0)%nat; [now apply (Hnone _ eq_refl)|].
  destruct (validate E fhs) as [resp|]; [now apply (Hnone _ eq_refl)|].
  rewrite Hu.
  destruct (rounds_as_uploadFiles fhs (PostForm_tags c) s0 _ Hh Hroom)
    as (Hw & Hr & Hd & _ & jobs & Hsent & Hbuf).
  split; [exact Hw|]. split; [exact Hr|]. split; [exact Hd|].
  exists jobs. split; [exact Hsent|exact Hbuf].
Qed.

End Queue.

(** C9 on two requests of 51 pictures each, whose handlers take turns
    while no worker receives: after 50 rounds each the buffer holds 100
    jobs; handler 0, reaching its next send, is parked with job 101 and
    the buffer stays as it is; handler 1 is parked behind it with job
    102; every send begun is in the buffer or with a parked handler;
    parked, handler 0 does not move, whether it or handler 1 is
    scheduled; worker 2 receives job 1, and job 101 enters the buffer at
    the tail while handler 0 goes on and handler 1 is first in line. *)
Lemma queue_blocks_witness :
  let E := Samples.env in
  let s := jobQueue.run E Samples.empty Samples.two_bursts in
  let s' := jobQueue.run E Samples.empty Samples.both_parked in
  let j1 := Samples.job_at 1 0 in
  let j101 := Samples.job_at 101 300 in
  let j102 := Samples.job_at 102 303 in
  (length (jobQueue.buf (jobQueue.chan s)) = 100%nat /\
   jobQueue.chan (jobQueue.step E s (jobQueue.Advance 0)) =
     {| jobQueue.buf := jobQueue.buf (jobQueue.chan s); jobQueue.sendq := [(0%nat, j101)] |} /\
   jobQueue.handlers (jobQueue.step E s (jobQueue.Advance 0)) !! 0%nat =
     Some (jobQueue.Sending j101 [] "cats")) /\
  (sent (jobQueue.world s') = jobQueue.buf (jobQueue.chan s') ++ [j101; j102] /\
   length (jobQueue.buf (jobQueue.chan s')) = 100%nat /\
   jobQueue.step E s' (jobQueue.Advance 0) = s' /\
   jobQueue.handlers (jobQueue.step E s' (jobQueue.Advance 1)) !! 0%nat =
     Some (jobQueue.Sending j101 [] "cats")) /\
  (let s2 := jobQueue.step E s' (jobQueue.Receive 2) in
   jobQueue.delivered s2 = [(2%nat, j1)] /\
   jobQueue.sendq (jobQueue.chan s2) = [(1%nat, j102)] /\
   last (jobQueue.buf (jobQueue.chan s2)) = Some j101 /\
   length (jobQueue.buf (jobQueue.chan s2)) = 100%nat /\
   jobQueue.handlers s2 !! 0%nat = Some (jobQueue.Running [] "cats")).
Proof.
  cbv zeta.
  set (s := jobQueue.run Samples.env Samples.empty Samples.two_bursts).
  set (s' := jobQueue.run Samples.env Samples.empty Samples.both_parked).
  assert (Hlen : length (jobQueue.buf (jobQueue.chan s)) = 100%nat)
    by (vm_compute; reflexivity).
  assert (Hq : jobQueue.sendq (jobQueue.chan s) = []) by (vm_compute; reflexivity).
  assert (Hh : jobQueue.handlers s !! 0%nat =
               Some (jobQueue.Running [Samples.cat_png] "cats"))
    by (vm_compute; reflexivity).
  assert (Hsend : fst (jobQueue.upload_to_send Samples.env Samples.cat_png "cats"
                         (jobQueue.world s)) = inr (Samples.job_at 101 300))
    by (vm_compute; reflexivity).
  assert (Hh' : jobQueue.handlers s' !! 0%nat =
                Some (jobQueue.Sending (Samples.job_at 101 300) [] "cats"))
    by (vm_compute; reflexivity).
  assert (Hq' : jobQueue.sendq (jobQueue.chan s') =
                [(0%nat, Samples.job_at 101 300); (1%nat, Samples.job_at 102 303)])
    by (vm_compute; reflexivity).
  assert (Hdel' : jobQueue.delivered s' = []) by (vm_compute; reflexivity).
  assert (Hhead' : head (jobQueue.buf (jobQueue.chan s')) = Some (Samples.job_at 1 0))
    by (vm_compute; reflexivity).
  pose proof (queue_blocks_when_full_and_keeps_order Samples.env Samples.empty
                Samples.two_bursts) as T.
  pose proof (queue_blocks_when_full_and_keeps_order Samples.env Samples.empty
                Samples.both_parked) as T'.
  cbv zeta in T, T'. fold s in T. fold s' in T'.
  destruct T as (_ & _ & _ & _ & _ & _ & Tsend & _).
  destruct T' as (_ & _ & Tacc & _ & _ & _ & _ & Tpark & _ & Trel).
  split; [|split].
  - destruct (Tsend _ _ _ _ _ Hh Hsend) as (_ & _ & Hif).
    rewrite Hlen in Hif. change (100 <? 100)%nat with false in Hif.
    cbv iota in Hif. destruct Hif as (Hc & Hp). rewrite Hq in Hc.
    split; [exact Hlen|]. split; [exact Hc|exact Hp].
  - destruct (Tpark _ _ _ _ Hh') as (Hfull & _ & Hstay & Hothers).
    split.
    { rewrite Tacc, Hdel', Hq'. reflexivity. }
    split; [exact Hfull|]. split; [exact Hstay|].
    exact (proj1 (Hothers (jobQueue.Advance 1) eq_refl)).
  - destruct (Trel 2%nat _ _ _ ltac:(unfold jobQueue.numWorkers; lia) Hq')
      as (hd & b & rest & tags & Hb & Hlb & Hp & Hc & Hd & Hr & _).
    rewrite Hb in Hhead'. injection Hhead' as ->.
    rewrite Hh' in Hp. injection Hp as <- <-.
    rewrite Hc, Hd, Hdel'. cbn [jobQueue.buf jobQueue.sendq].
    split; [reflexivity|]. split; [reflexivity|].
    split; [apply last_snoc|]. split; [rewrite length_app, Hlb; reflexivity|exact Hr].
Defined.

(** ** The theorems at sample inputs *)

(** C4 where the tesseract binary is missing: the record is completed
    with the empty text. *)
Lemma ocr_failure_witness :
  let E := Samples.env_no_tesseract in
  let w := Samples.after_upload E "cat.png" Samples.picture "cats" in
  let w' := snd (processMedia E 1 "storage/f0.png" "image/png" w) in
  strings.HasPrefix "image/png" "image/" = true /\
  reaches_ocr E 1 "storage/f0.png" w (Samples.decoded 300 200) /\
  List.filter is_command (events_since w w') =
    [EvCommand "tesseract" ["storage/f0.png"; "stdout"; "-l"; "eng"]] /\
  (OcrText <$> media w' !! 1) = Some (Some "") /\
  (ProcessingStatus <$> media w' !! 1) = Some "completed".
Proof.
  cbv zeta.
  set (E := Samples.env_no_tesseract).
  set (w := Samples.after_upload E "cat.png" Samples.picture "cats").
  assert (Hm : strings.HasPrefix "image/png" "image/" = true) by reflexivity.
  assert (Hr : reaches_ocr E 1 "storage/f0.png" w (Samples.decoded 300 200))
    by (split; vm_compute; reflexivity).
  assert (Hrec : exists r, media w !! 1 = Some r) by (vm_compute; eauto).
  destruct Hrec as [r Hrec].
  destruct (ocr_on_original_path_degrades_to_empty E 1 "storage/f0.png" "image/png"
              w (Samples.decoded 300 200) r Hm Hr Hrec eq_refl)
    as (Hcmd & (r' & Hlk & Hocr & Hst) & Hfail).
  split; [exact Hm|]. split; [exact Hr|]. split; [exact Hcmd|].
  rewrite Hlk. simpl. rewrite Hocr, Hst.
  rewrite (Hfail _ eq_refl). split; reflexivity.
Defined.

(** C5 on the sample picture of 300 by 200. *)
Lemma thumbnail_witness :
  let E := Samples.env in
  let w := Samples.after_upload E "cat.png" Samples.picture "cats" in
  let w' := snd (processImage E 1 "storage/f0.png" w) in
  reaches_ocr E 1 "storage/f0.png" w (Samples.decoded 300 200) /\
  files w' !! "static/1_thumb.jpg" =
    Some (jpeg E {| imaging.Dx := 200; imaging.Dy := 133;
                    imaging.Resampled := Some imaging.Lanczos |}) /\
  (Width <$> media w' !! 1) = Some (Some 300) /\
  (Height <$> media w' !! 1) = Some (Some 200).
Proof.
  cbv zeta.
  set (E := Samples.env).
  set (w := Samples.after_upload E "cat.png" Samples.picture "cats").
  assert (Hr : reaches_ocr E 1 "storage/f0.png" w (Samples.decoded 300 200))
    by (split; vm_compute; reflexivity).
  assert (Hrec : exists r, media w !! 1 = Some r) by (vm_compute; eauto).
  destruct Hrec as [r Hrec].
  destruct (thumbnail_of_300_by_200 E 1 "storage/f0.png" w (Samples.decoded 300 200) r
              Hr eq_refl eq_refl Hrec eq_refl)
    as (Hfile & _ & _ & (r' & Hlk & _ & Hw & Hh)).
  split; [exact Hr|]. split; [exact Hfile|].
  rewrite Hlk. simpl. rewrite Hw, Hh. split; reflexivity.
Defined.

(** C7 on the vault with one processed picture tagged "cats": the query
    "cats" matches id 1 and returns its record. *)
Lemma search_witness :
  let E := Samples.env in
  let w := Samples.after_job E "cat.png" Samples.picture "cats" in
  let out := getMedia E "cats" w in
  sql.select_rowids (MATCH E "cats") (media_fts w) = [1] /\
  List.filter is_store_access (events_since w (snd out)) =
    [EvQuery (SelectFtsMatch "cats"); EvQuery (SelectMediaIn [1])] /\
  exists rows, fst out = Returned rows /\
    (forall r, r ∈ rows <-> r ∈ sql.rows_of (media w) /\ ID r ∈ [1]) /\
    StronglySorted sql.created_desc rows.
Proof.
  cbv zeta.
  set (E := Samples.env).
  set (w := Samples.after_job E "cat.png" Samples.picture "cats").
  assert (Hids : sql.select_rowids (MATCH E "cats") (media_fts w) = [1])
    by (vm_compute; reflexivity).
  assert (Hq : "cats" <> "") by discriminate.
  assert (Hdb : forall q, DB_Query_err E q = None) by (intros q; reflexivity).
  pose proof (search_by_index_then_records E "cats" w Hq Hdb) as H.
  cbv zeta in H. rewrite Hids in H.
  destruct H as (Hev & rows & Hout & Hmem & _ & Hsorted).
  split; [exact Hids|]. split; [exact Hev|].
  exists rows. split; [exact Hout|]. split; [exact Hmem|exact Hsorted].
Defined.

(** C10 on the vault with one record, id 1, for the id 7. *)
Lemma tag_update_witness :
  let E := Samples.env in
  let w := Samples.after_upload E "cat.png" Samples.picture "cats" in
  let out := updateTagsHandler E "7" "dogs" w in
  strconv.ParseInt "7" = Some 7 /\
  media w !! 7 = None /\
  index_within_records w /\
  fst out = c_String StatusOK "dogs" /\
  media (snd out) = media w /\
  media_fts (snd out) = media_fts w.
Proof.
  cbv zeta.
  set (E := Samples.env).
  set (w := Samples.after_upload E "cat.png" Samples.picture "cats").
  assert (Hp : strconv.ParseInt "7" = Some 7) by reflexivity.
  assert (Hnone : media w !! 7 = None) by (vm_compute; reflexivity).
  assert (Hinv : index_within_records w).
  { apply (reachable_index_inv E). apply reach_upload. apply (reach_start E ∅). }
  destruct (tag_update_of_unknown_id E "7" 7 "dogs" w Hp Hnone Hinv eq_refl)
    as (Hout & Hm & Hf & _).
  repeat (split; [assumption|]). assumption.
Defined.

(** * Further properties *)

(** ** Upload *)

Section UploadMore.

Variable E : Env.

Lemma validate_refusal fhs resp :
  validate E fhs = Some resp -> exists h, resp = c_JSON StatusBadRequest h.
Proof.
  induction fhs as [|file rest IH]; simpl; [discriminate|].
  destruct (negb _); [intros [= <-]; eauto|].
  destruct (Size file >? maxSize); [intros [= <-]; eauto|exact IH].
Qed.

(** A request that is refused before the second loop (no form, no file,
    a file of a type not allowed or over 10 MB) is answered 400 and
    leaves the world as it was: nothing is stored, inserted or sent,
    also for the files before the refused one. *)
Theorem refused_upload_changes_nothing c w :
  refused_request E c ->
  exists h, uploadHandler E c w = (c_JSON StatusBadRequest h, w).
Proof.
  unfold refused_request, uploadHandler.
  destruct (MultipartForm c) as [fhs|err]; [|intros _; eexists; reflexivity].
  intros [->|[resp Hv]]; [eexists; reflexivity|].
  destruct fhs as [|file rest]; [discriminate|].
  cbn [length Nat.eqb]. rewrite Hv.
  destruct (validate_refusal _ _ Hv) as [h ->]. eexists; reflexivity.
Qed.

Lemma validate_None_iff fhs :
  validate E fhs = None <-> Forall (acceptable E) fhs.
Proof.
  induction fhs as [|file rest IH]; simpl.
  - split; [constructor|reflexivity].
  - rewrite Forall_cons, <- IH. unfold acceptable.
    destruct (allowedTypes !! mimeOf E (filepath.Ext (Filename file))) as [[|]|]; simpl;
      try (split; [discriminate|intros [[? _] _]; discriminate]).
    destruct (Z.gtb_spec (Size file) maxSize) as [Hgt|Hle].
    + split; [discriminate|intros [[_ ?] _]; lia].
    + split; [intros H; repeat split; auto|intros [_ H]; exact H].
Qed.

(** The first loop lets a request through exactly when every file has an
    allowed type and at most 10 MB; what it answers otherwise is a 400. *)
Theorem validate_accepts_exactly fhs :
  (validate E fhs = None <-> Forall (acceptable E) fhs) /\
  (forall resp, validate E fhs = Some resp ->
     (exists h, resp = c_JSON StatusBadRequest h) /\ Exists (fun f => ~ acceptable E f) fhs).
Proof.
  split; [apply validate_None_iff|].
  intros resp Hv. split; [eapply validate_refusal; exact Hv|].
  apply not_Forall_Exists; [intros f; unfold acceptable; apply _|].
  rewrite <- validate_None_iff, Hv. discriminate.
Qed.

Lemma allowed_type_is_dispatched mimeType :
  allowedTypes !! mimeType = Some true ->
  strings.HasPrefix mimeType "image/" = true \/
  strings.HasPrefix mimeType "video/" = true.
Proof.
  intros H. apply elem_of_list_to_map_2 in H.
  repeat (apply elem_of_cons in H as [H|H];
          [injection H as ->; first [left; reflexivity|right; reflexivity]|]).
  inversion H.
Qed.

Lemma uploadFiles_jobs fhs tags w :
  let out := uploadFiles E fhs tags w in
  exists jobs,
    sent (snd out) = sent w ++ jobs /\
    Forall2 (job_of_file E) (take (length jobs) fhs) jobs /\
    NoDup (map job_ID jobs) /\
    Forall (fun j => media w !! job_ID j = None) jobs /\
    media w ⊆ media (snd out).
Proof.
  cbv zeta. revert w. induction fhs as [|file rest IH]; intros w.
  - exists []. simpl. rewrite app_nil_r. repeat split; auto; constructor.
  - cbn [uploadFiles].
    unfold SaveUploadedFile, os_Stat, next_tick, bind, emit, get, ret, set_files.
    cbn [fst snd media media_fts files sent trace tick].
    destruct (SaveUploadedFile_err E _) as [err|];
      cbn [fst snd media media_fts files sent trace tick].
    + exists []. simpl. rewrite app_nil_r. repeat split; auto; constructor.
    + rewrite lookup_insert_eq.
      match goal with |- context [ingest E ?p ?m ?sz tags ?w0] =>
        pose proof (ingest_refused E p m sz tags w0) as Hno;
        pose proof (ingest_inserted E p m sz tags w0) as Hin;
        cbv zeta in Hno, Hin; cbn [media media_fts sent tick] in Hno, Hin;
        destruct (ingest E p m sz tags w0) as [o w1] eqn:Hrun
      end.
      cbn [fst snd] in Hno, Hin.
      destruct (DB_Exec_err E _) as [err|].
      { destruct Hno as ([err' ->] & Hm & _ & Hs); [left; eauto|].
        exists []. cbn [fst snd]. rewrite Hm, Hs, app_nil_r.
        repeat split; auto; constructor. }
      destruct (sql.next_rowid _ (media w)) as [id|].
      2:{ destruct Hno as ([err' ->] & Hm & _ & Hs); [now right|].
        exists []. cbn [fst snd]. rewrite Hm, Hs, app_nil_r.
        repeat split; auto; constructor. }
      destruct (Hin id eq_refl eq_refl) as (-> & Hfresh & Hm & Hs).
      destruct (IH w1) as (jobs & Hs' & Hof & Hnd & Hnew & Hsub).
      destruct (uploadFiles E rest tags w1) as [resp w2]. cbn [fst snd] in *.
      assert (Hsub0 : media w ⊆ media w1).
      { rewrite Hm. now apply insert_subseteq. }
      eexists (_ :: jobs). rewrite Hs', Hs, <- app_assoc. split; [reflexivity|].
      split; [|split; [|split]].
      * cbn [length take]. constructor; [|exact Hof].
        split; [reflexivity|]. eexists. reflexivity.
      * cbn [map]. constructor; [|exact Hnd].
        cbn [job_ID]. intros Hmem. apply list_elem_of_fmap in Hmem as (j & Hj & Hjin).
        rewrite Forall_forall in Hnew. specialize (Hnew j Hjin).
        rewrite <- Hj, Hm, lookup_insert_eq in Hnew. discriminate.
      * constructor; [exact Hfresh|].
        eapply Forall_impl; [exact Hnew|]. intros j Hn.
        destruct (media w !! job_ID j) as [r0|] eqn:Hj; [|reflexivity].
        apply (lookup_weaken _ _ _ _ Hj) in Hsub0. congruence.
      * etransitivity; eassumption.
Qed.

(** The jobs an upload sends: each has its own id, new to table
    [media], a path under [storage/] and an allowed MIME type, which
    [processMedia] dispatches to one of its two processors: the branch
    for unsupported types is not reached by a job of an upload. *)
Theorem uploaded_jobs_are_dispatchable c w :
  let out := uploadHandler E c w in
  exists jobs,
    sent (snd out) = sent w ++ jobs /\
    NoDup (map job_ID jobs) /\
    Forall (fun j =>
              media w !! job_ID j = None /\
              allowedTypes !! job_MimeType j = Some true /\
              strings.HasPrefix (job_Path j) "storage/" = true /\
              (strings.HasPrefix (job_MimeType j) "image/" = true \/
               strings.HasPrefix (job_MimeType j) "video/" = true)) jobs.
Proof.
  cbv zeta. unfold uploadHandler.
  assert (Hnone : forall resp, exists jobs,
            sent (snd (ret resp w : Response * World)) = sent w ++ jobs /\
            NoDup (map job_ID jobs) /\
            Forall (fun j =>
              media w !! job_ID j = None /\
              allowedTypes !! job_MimeType j = Some true /\
              strings.HasPrefix (job_Path j) "storage/" = true /\
              (strings.HasPrefix (job_MimeType j) "image/" = true \/
               strings.HasPrefix (job_MimeType j) "video/" = true)) jobs).
  { intros resp. exists []. simpl. rewrite app_nil_r. repeat split; constructor. }
  destruct (MultipartForm c) as [fhs|err]; [|apply Hnone].
  destruct (length fhs =? 0)%nat; [apply Hnone|].
  destruct (validate E fhs) as [resp|] eqn:Hv; [apply Hnone|].
  apply validate_None_iff in Hv.
  destruct (uploadFiles_jobs fhs (PostForm_tags c) w) as (jobs & Hs & Hof & Hnd & Hnew & _).
  exists jobs. split; [exact Hs|]. split; [exact Hnd|].
  assert (Hacc : Forall (acceptable E) (take (length jobs) fhs)).
  { apply Forall_take. exact Hv. }
  clear Hs Hnd Hv. revert Hacc Hnew.
  induction Hof as [|file j fs js [Hmime [t Hpath]] _ IH]; intros Hacc Hnew; constructor.
  - apply Forall_cons in Hacc as [[Hal _] _]. apply Forall_cons in Hnew as [Hn _].
    rewrite Hmime. split; [exact Hn|]. split; [exact Hal|].
    split.
    { rewrite Hpath. unfold strings.HasPrefix. simpl.
      match goal with |- String.prefix "" ?s = true => now destruct s end. }
    now apply allowed_type_is_dispatched.
  - apply Forall_cons in Hacc as [_ Hacc]. apply Forall_cons in Hnew as [_ Hnew]. auto.
Qed.

End UploadMore.

(** ** Tag edits, further *)

Section TagsMore.

Variable E : Env.

(** A tag edit of an existing record which the database accepts: 200
    with the new tags; of the record only the tags change; the index row
    under the same rowid gets the tags too; no other row of either table
    changes, nor the disk, nor the queue. *)
Theorem tag_update_changes_only_tags idStr id tags w r :
  strconv.ParseInt idStr = Some id ->
  media w !! id = Some r ->
  DB_Exec_err E (UpdateMediaTags tags id) = None ->
  DB_Exec_err E (UpdateFtsTags tags id) = None ->
  let out := updateTagsHandler E idStr tags w in
  fst out = c_String StatusOK tags /\
  (exists r', media (snd out) !! id = Some r' /\
     Tags r' = tags /\ same_upload_fields r r' /\
     ProcessingStatus r' = ProcessingStatus r /\ Thumb r' = Thumb r /\
     Width r' = Width r /\ Height r' = Height r /\ OcrText r' = OcrText r) /\
  (forall k, k <> id -> media (snd out) !! k = media w !! k) /\
  media_fts (snd out) !! id = sql.set_fts_tags tags <$> media_fts w !! id /\
  (forall k, k <> id -> media_fts (snd out) !! k = media_fts w !! k) /\
  files (snd out) = files w /\ sent (snd out) = sent w.
Proof.
  intros Hp Hrec Hdb Hfts. cbv zeta. unfold updateTagsHandler. rewrite Hp.
  run. rewrite Hdb. simpl. rewrite Hfts. simpl.
  split; [reflexivity|]. split; [|split; [|split; [|split]]].
  - rewrite lookup_alter_eq, Hrec. simpl. eexists. split; [reflexivity|].
    unfold same_upload_fields. simpl. repeat split.
  - intros k Hk. now apply lookup_alter_ne.
  - apply lookup_alter_eq.
  - intros k Hk. now apply lookup_alter_ne.
  - split; reflexivity.
Qed.

(** A tag edit whose UPDATE of the index fails is still answered 200:
    the record has the new tags, the index keeps the old ones, and the
    failure is only logged. *)
Theorem tag_update_with_index_refusing idStr id tags w err :
  strconv.ParseInt idStr = Some id ->
  DB_Exec_err E (UpdateMediaTags tags id) = None ->
  DB_Exec_err E (UpdateFtsTags tags id) = Some err ->
  let out := updateTagsHandler E idStr tags w in
  fst out = c_String StatusOK tags /\
  media (snd out) = alter (sql.set_Tags tags) id (media w) /\
  media_fts (snd out) = media_fts w /\
  last (trace (snd out)) =
    Some (EvLog "Failed to update FTS tags for %d: %v" [AInt id; AErr err]).
Proof.
  intros Hp Hdb Hfts. cbv zeta. unfold updateTagsHandler. rewrite Hp.
  run. rewrite Hdb. simpl. rewrite Hfts. simpl.
  repeat split. apply last_snoc.
Qed.

(** A tag edit whose UPDATE of the record fails is answered 500, and
    the UPDATE of the index is not attempted. *)
Theorem tag_update_refused idStr id tags w err :
  strconv.ParseInt idStr = Some id ->
  DB_Exec_err E (UpdateMediaTags tags id) = Some err ->
  let out := updateTagsHandler E idStr tags w in
  fst out = c_JSON StatusInternalServerError [("error", err)] /\
  media (snd out) = media w /\ media_fts (snd out) = media_fts w /\
  List.filter is_store_access (events_since w (snd out)) =
    [EvExec (UpdateMediaTags tags id)].
Proof.
  intros Hp Hdb. cbv zeta. unfold updateTagsHandler. rewrite Hp.
  unfold events_since. run. rewrite Hdb. simpl.
  repeat split. rewrite <- !app_assoc, drop_app_length. reflexivity.
Qed.

End TagsMore.

(** ** Derived paths *)

(** The derived paths are a function of the id alone, no two ids share
    one, and no thumbnail path is a frame path. *)
Theorem derived_paths_do_not_collide id id' :
  (thumbPath id = thumbPath id' <-> id = id') /\
  (framePath id = framePath id' <-> id = id') /\
  thumbPath id <> framePath id' /\
  strings.HasPrefix (thumbPath id) "static/" = true /\
  strings.HasPrefix (framePath id) "static/" = true.
Proof.
  split; [|split; [|split; [|split]]].
  - split; [apply thumbPath_inj|now intros ->].
  - split; [apply framePath_inj|now intros ->].
  - apply thumbPath_not_framePath.
  - unfold thumbPath, strings.HasPrefix. simpl.
    match goal with |- String.prefix "" ?s = true => now destruct s end.
  - unfold framePath, strings.HasPrefix. simpl.
    match goal with |- String.prefix "" ?s = true => now destruct s end.
Qed.

(** ** The video frame extractor, further *)

Section VideoMore.

Variable E : Env.

Lemma os_Remove_others path w p :
  p <> path -> files (snd (os_Remove E path w)) !! p = files w !! p.
Proof.
  intros Hp. unfold os_Remove, bind, emit, get, ret, set_files. simpl.
  destruct (files w !! path); simpl; [|reflexivity].
  destruct (os_Remove_err E path); simpl; [reflexivity|].
  now apply lookup_delete_ne.
Qed.

(** A video job in which everything works: ffmpeg and then tesseract on
    the frame are the programs started; the record of the video gets the
    thumbnail path, the dimensions of the frame and the text read off the
    frame; no other record changes; the thumbnail is on disk and, unless
    the removal is refused, the frame is not. *)
Theorem video_results_under_video_id id path mimeType w frame src r :
  strings.HasPrefix mimeType "video/" = true ->
  ffmpeg E (files w) path (framePath id) = (None, Some frame) ->
  file_image frame = Some src ->
  imaging_Save_err E (thumbnail src) (thumbPath id) = None ->
  media w !! id = Some r ->
  DB_Exec_err E (record_update E id (framePath id)
                   (frame_extracted E id path mimeType w) src) = None ->
  let w' := snd (processMedia E id path mimeType w) in
  let fs := <[thumbPath id := jpeg E (thumbnail src)]>
              (<[framePath id := frame]> (files w)) in
  List.filter is_command (events_since w w') =
    [EvCommand "ffmpeg" ["-i"; path; "-vframes"; "1"; "-q:v"; "2"; framePath id];
     EvCommand "tesseract" [framePath id; "stdout"; "-l"; "eng"]] /\
  media w' !! id =
    Some (sql.set_processed (thumbPath id) (imaging.Dx src) (imaging.Dy src)
            (ocr_text_of E fs (framePath id)) r) /\
  (forall k, k <> id -> media w' !! k = media w !! k) /\
  files w' !! thumbPath id = Some (jpeg E (thumbnail src)) /\
  (os_Remove_err E (framePath id) = None -> files w' !! framePath id = None).
Proof.
  intros Hm Hff Himg Hs Hrec Hdb. cbv zeta.
  assert (Hff1 : fst (ffmpeg E (files w) path (framePath id)) = None) by now rewrite Hff.
  rewrite (video_job_after_ffmpeg E _ _ _ _ Hm Hff1).
  set (w1 := frame_extracted E id path mimeType w) in *.
  assert (Hfiles1 : files w1 = <[framePath id := frame]> (files w)).
  { unfold w1, frame_extracted. simpl. now rewrite Hff. }
  assert (Hr : reaches_ocr E id (framePath id) w1 src).
  { split; [|exact Hs]. unfold open_image. rewrite Hfiles1, lookup_insert_eq, Himg.
    reflexivity. }
  destruct (processImage_saved E id (framePath id) w1 src Hr)
    as (Hf & Hq & Hmed & Hfts & evs & Htr & Hcmd & Hst).
  rewrite Hdb in Hmed. rewrite Hfiles1 in Hf, Hmed.
  unfold bind.
  destruct (processImage E id (framePath id) w1) as [[] w2]. cbn [snd] in *.
  pose proof (os_Remove_effect E (framePath id) w2) as Hrm. cbv zeta in Hrm.
  pose proof (os_Remove_others (framePath id) w2 (thumbPath id)
                (thumbPath_not_framePath id id)) as Hkeep.
  destruct (os_Remove E (framePath id) w2) as [e w3]. cbn [snd] in Hrm, Hkeep.
  destruct Hrm as (Htr3 & Hmed3 & Hfts3 & Hq3 & Hgone).
  cbn [emit snd trace media media_fts sent files].
  split; [|split; [|split; [|split]]].
  - erewrite events_since_app;
      [|rewrite Htr3, Htr; unfold w1, frame_extracted; cbn [trace];
        rewrite <- !app_assoc; reflexivity].
    cbn [app]. simpl List.filter. rewrite !List.filter_app, Hcmd. reflexivity.
  - rewrite Hmed3, Hmed, lookup_alter_eq.
    unfold w1 at 1, frame_extracted; cbn [media]. rewrite Hrec. reflexivity.
  - intros k Hk. rewrite Hmed3, Hmed, lookup_alter_ne by congruence. reflexivity.
  - rewrite Hkeep, Hf. apply lookup_insert_eq.
  - exact Hgone.
Qed.

End VideoMore.

(** ** The image processor, further *)

Section ImageMore.

Variable E : Env.




End ImageMore.

(** ** What the operations do to the records *)

Section Rows.

Variable E : Env.
Variable P : Z -> Media -> Media -> Prop.
Hypothesis P_refl : forall k r, P k r r.
Hypothesis P_trans : forall k r1 r2 r3, P k r1 r2 -> P k r2 r3 -> P k r1 r3.

Lemma rows_related_refl w w' :
  media w' = media w -> rows_related P w w'.
Proof. intros Hm k r Hr. exists r. rewrite Hm. auto. Qed.

Lemma rows_related_trans w1 w2 w3 :
  rows_related P w1 w2 -> rows_related P w2 w3 -> rows_related P w1 w3.
Proof.
  intros H12 H23 k r Hr. destruct (H12 k r Hr) as (r2 & Hr2 & HP2).
  destruct (H23 k r2 Hr2) as (r3 & Hr3 & HP3). eauto.
Qed.

Lemma keeps_ret {A : Type} (a : A) : keeps (rows_related P) (ret a).
Proof. intros w. now apply rows_related_refl. Qed.

Lemma keeps_bind {A B : Type} (m : M A) (k : A -> M B) :
  keeps (rows_related P) m -> (forall a, keeps (rows_related P) (k a)) ->
  keeps (rows_related P) (bind m k).
Proof.
  intros Hm Hk w. unfold bind. specialize (Hm w).
  destruct (m w) as [a w1]. eapply rows_related_trans; [exact Hm|apply Hk].
Qed.

Lemma keeps_emit e : keeps (rows_related P) (emit e).
Proof. intros w. now apply rows_related_refl. Qed.

Lemma keeps_get {A : Type} (proj : World -> A) : keeps (rows_related P) (get proj).
Proof. intros w. now apply rows_related_refl. Qed.

Lemma keeps_set_files fs : keeps (rows_related P) (set_files fs).
Proof. intros w. now apply rows_related_refl. Qed.

Lemma keeps_push_sent j : keeps (rows_related P) (push_sent j).
Proof. intros w. now apply rows_related_refl. Qed.

Lemma keeps_next_tick : keeps (rows_related P) next_tick.
Proof. intros w. now apply rows_related_refl. Qed.

Lemma rows_related_alter f id (w w' : World) :
  (forall r, P id r (f r)) ->
  media w' = alter f id (media w) -> rows_related P w w'.
Proof.
  intros Hf Hm k r Hr. rewrite Hm. destruct (decide (id = k)) as [<-|Hk].
  - rewrite lookup_alter_eq, Hr. simpl. eauto.
  - rewrite lookup_alter_ne by exact Hk. eauto.
Qed.

Lemma keeps_DB_Exec s :
  update_respects P s -> keeps (rows_related P) (DB_Exec E s).
Proof.
  intros Hs w. unfold DB_Exec, bind, emit, get, ret, next_tick, set_tables.
  cbn -[sql.exec].
  destruct (DB_Exec_err E s); [now apply rows_related_refl|]. cbn -[sql.exec].
  destruct s; simpl in *.
  - destruct (sql.next_rowid _ (media w)) as [id|] eqn:Hid; simpl;
      [|now apply rows_related_refl].
    intros k r Hr. exists r. split; [|apply P_refl]. simpl.
    rewrite lookup_insert_ne; [exact Hr|].
    intros <-. apply next_rowid_fresh in Hid. congruence.
  - destruct (media_fts w !! rowid); simpl; now apply rows_related_refl.
  - now apply (rows_related_alter (sql.set_Tags tags) id).
  - now apply rows_related_refl.
  - now apply (rows_related_alter (sql.set_processed thumb width height ocr_text) id).
  - now apply rows_related_refl.
Qed.

End Rows.

Section RowsOfHandlers.

Variable E : Env.
Variable P : Z -> Media -> Media -> Prop.
Hypothesis P_refl : forall k r, P k r r.
Hypothesis P_trans : forall k r1 r2 r3, P k r1 r2 -> P k r2 r3 -> P k r1 r3.

Ltac rel_with tac :=
  repeat first
    [ tac
    | apply (keeps_ret P P_refl) | apply (keeps_emit P P_refl)
    | apply (keeps_get P P_refl) | apply (keeps_set_files P P_refl)
    | apply (keeps_push_sent P P_refl) | apply (keeps_next_tick P P_refl)
    | apply (keeps_DB_Exec E P P_refl); simpl; solve [auto]
    | apply (keeps_bind P P_trans); [|intros]
    | match goal with
      | |- keeps _ (match ?x with _ => _ end) => destruct x
      | |- keeps _ (if ?x then _ else _) => destruct x
      | |- keeps _ (let '(_, _) := ?x in _) => destruct x
      end ].

Ltac rel := rel_with fail.

Lemma keeps_processImage id path :
  (forall t x y o r, P id r (sql.set_processed t x y o r)) ->
  keeps (rows_related P) (processImage E id path).
Proof.
  intros Hp. unfold processImage, imaging_Open, imaging_Save, extractOCR, log_Printf. rel.
Qed.

Lemma keeps_processMedia id path mimeType :
  (forall t x y o r, P id r (sql.set_processed t x y o r)) ->
  keeps (rows_related P) (processMedia E id path mimeType).
Proof.
  intros Hp. unfold processMedia, processVideoOrGif, os_Remove, log_Printf.
  rel_with ltac:(apply keeps_processImage; exact Hp).
Qed.

Lemma keeps_worker workerID job :
  (forall t x y o r, P (job_ID job) r (sql.set_processed t x y o r)) ->
  keeps (rows_related P) (worker E workerID job).
Proof.
  intros Hp. unfold worker, log_Printf.
  rel_with ltac:(apply keeps_processMedia; exact Hp).
Qed.

Lemma keeps_worker_loop workerID jobs :
  (forall id t x y o r, P id r (sql.set_processed t x y o r)) ->
  keeps (rows_related P) (worker_loop E workerID jobs).
Proof.
  intros Hp. induction jobs as [|job rest IH]; cbn [worker_loop].
  - apply (keeps_ret P P_refl).
  - rel_with ltac:(first [apply keeps_worker; intros; apply Hp | apply IH]).
Qed.

Lemma keeps_getMedia query : keeps (rows_related P) (getMedia E query).
Proof. unfold getMedia, DB_Query_media, DB_Query_rowids, log_Printf. rel. Qed.

Lemma keeps_indexHandler : keeps (rows_related P) (indexHandler E).
Proof. unfold indexHandler. rel_with ltac:(apply keeps_getMedia). Qed.

Lemma keeps_searchHandler q : keeps (rows_related P) (searchHandler E q).
Proof. unfold searchHandler, log_Printf. rel_with ltac:(apply keeps_getMedia). Qed.

Lemma keeps_getMediaStatusHandler idStr hx :
  keeps (rows_related P) (getMediaStatusHandler E idStr hx).
Proof. unfold getMediaStatusHandler, DB_QueryRow_media. rel. Qed.

Lemma keeps_updateTagsHandler idStr tags :
  (forall id r, P id r (sql.set_Tags tags r)) ->
  keeps (rows_related P) (updateTagsHandler E idStr tags).
Proof. intros Hp. unfold updateTagsHandler, log_Printf. rel. Qed.

Lemma keeps_uploadFiles fhs tags : keeps (rows_related P) (uploadFiles E fhs tags).
Proof.
  induction fhs as [|file rest IH]; cbn [uploadFiles].
  - apply (keeps_ret P P_refl).
  - unfold SaveUploadedFile, os_Stat, ingest, LastInsertId, jobQueue_send, log_Printf.
    rel_with ltac:(apply IH).
Qed.

Lemma keeps_uploadHandler c : keeps (rows_related P) (uploadHandler E c).
Proof. unfold uploadHandler. rel_with ltac:(apply keeps_uploadFiles). Qed.

End RowsOfHandlers.

Lemma same_upload_fields_refl r : same_upload_fields r r.
Proof. unfold same_upload_fields. auto. Qed.

Lemma same_upload_fields_trans r1 r2 r3 :
  same_upload_fields r1 r2 -> same_upload_fields r2 r3 -> same_upload_fields r1 r3.
Proof. unfold same_upload_fields. intuition congruence. Qed.

(** No operation of the server deletes a record or changes the columns
    the INSERT wrote (id, path, mime, size_bytes, created_at): not an
    upload, a tag edit, any run of a worker, nor the three reading
    endpoints. *)
Theorem records_are_kept (E : Env) (w : World) :
  (forall c, records_kept w (snd (uploadHandler E c w))) /\
  (forall idStr tags, records_kept w (snd (updateTagsHandler E idStr tags w))) /\
  (forall workerID jobs, records_kept w (snd (worker_loop E workerID jobs w))) /\
  (forall q, records_kept w (snd (searchHandler E q w))) /\
  records_kept w (snd (indexHandler E w)) /\
  (forall idStr hx, records_kept w (snd (getMediaStatusHandler E idStr hx w))).
Proof.
  set (P := fun (_ : Z) r r' => same_upload_fields r r').
  assert (Hr : forall k r, P k r r) by (intros; apply same_upload_fields_refl).
  assert (Ht : forall k r1 r2 r3, P k r1 r2 -> P k r2 r3 -> P k r1 r3)
    by (intros k r1 r2 r3; apply same_upload_fields_trans).
  change records_kept with (rows_related P).
  split; [|split; [|split; [|split; [|split]]]]; intros.
  - now apply keeps_uploadHandler.
  - apply keeps_updateTagsHandler; auto.
  - apply keeps_worker_loop; auto.
    intros id t x y o r. subst P. unfold same_upload_fields. simpl. auto 10.
  - now apply keeps_searchHandler.
  - now apply keeps_indexHandler.
  - now apply keeps_getMediaStatusHandler.
Qed.

(** A job, of whatever type and whatever happens in it, leaves every
    record other than its own as it was, and of its own record neither
    the tags nor the upload columns change. *)
Theorem job_touches_only_its_record (E : Env) id path mimeType w :
  rows_related (job_scope id) w (snd (processMedia E id path mimeType w)).
Proof.
  apply keeps_processMedia.
  - intros k r. unfold job_scope. auto using same_upload_fields_refl.
  - intros k r1 r2 r3 (Ht1 & Hu1 & He1) (Ht2 & Hu2 & He2). unfold job_scope.
    split; [congruence|]. split; [eapply same_upload_fields_trans; eassumption|].
    intros Hk. rewrite He2, He1 by exact Hk. reflexivity.
  - intros t x y o r. unfold job_scope, same_upload_fields. simpl.
    repeat split; auto. intros Hk. now contradiction Hk.
Qed.

(** A tag edit, whatever the database answers, leaves every record other
    than the one named as it was, and of that one changes only the tags;
    with an id that does not parse nothing changes. *)
Theorem tag_edit_touches_only_its_record (E : Env) idStr tags w :
  rows_related
    (fun k r r' =>
       match strconv.ParseInt idStr with
       | Some id => tag_scope id k r r'
       | None => r' = r
       end)
    w (snd (updateTagsHandler E idStr tags w)).
Proof.
  unfold updateTagsHandler. destruct (strconv.ParseInt idStr) as [id|].
  - assert (Hr : forall k r, tag_scope id k r r).
    { intros k r. unfold tag_scope. auto 10 using same_upload_fields_refl. }
    assert (Ht : forall k r1 r2 r3,
               tag_scope id k r1 r2 -> tag_scope id k r2 r3 -> tag_scope id k r1 r3).
    { intros k r1 r2 r3 (Hu1 & Hs1 & Hb1 & Hw1 & Hh1 & Ho1 & He1)
        (Hu2 & Hs2 & Hb2 & Hw2 & Hh2 & Ho2 & He2). unfold tag_scope.
      split; [eapply same_upload_fields_trans; eassumption|].
      do 5 (split; [congruence|]).
      intros Hk. rewrite He2, He1 by exact Hk. reflexivity. }
    assert (Hu : forall r, tag_scope id id r (sql.set_Tags tags r)).
    { intros r. unfold tag_scope, same_upload_fields. simpl. repeat split; auto.
      intros Hk. now contradiction Hk. }
    unfold log_Printf.
    repeat first
      [ apply (keeps_ret _ Hr) | apply (keeps_emit _ Hr)
      | apply (keeps_DB_Exec E _ Hr); simpl; solve [auto]
      | apply (keeps_bind _ Ht); [|intros]
      | match goal with
        | |- keeps _ (match ?x with _ => _ end) => destruct x
        | |- rows_related _ _ (snd (?m w)) => change (keeps (rows_related (tag_scope id)) m)
        end ].
  - intros k r Hk. exists r. auto.
Qed.

(** ** The Go library functions, further *)

(** [strconv.ParseInt] reads back what [strconv.FormatInt] prints, for
    every int64: the id in a derived path or a URL is the id of the
    record. *)
Lemma ParseInt_FormatInt i :
  - 2 ^ 63 <= i < 2 ^ 63 -> strconv.ParseInt (strconv.FormatInt i) = Some i.
Proof.
  intros Hi. unfold strconv.FormatInt. destruct i as [|p|p]; [reflexivity| |].
  - assert (Hof : Z.of_uint (Pos.to_uint p) = Z.pos p).
    { unfold Z.of_uint. now rewrite DecimalPos.Unsigned.of_to. }
    pose proof (Unsigned.to_uint_nonnil p) as Hnn.
    pose proof (NilEmpty.usu (Pos.to_uint p)) as Hus.
    cbn [Z.to_int NilZero.string_of_int]. unfold NilZero.string_of_uint.
    destruct (Pos.to_uint p) as [|d|d|d|d|d|d|d|d|d|d]; [congruence|..];
      unfold strconv.ParseInt; cbn [NilEmpty.string_of_uint] in Hus |- *;
      rewrite Hus, Hof;
      (destruct (Z.ltb_spec (Z.pos p) (2 ^ 63)); [reflexivity|lia]).
  - assert (Hof : Z.of_uint (Pos.to_uint p) = Z.pos p).
    { unfold Z.of_uint. now rewrite DecimalPos.Unsigned.of_to. }
    pose proof (Unsigned.to_uint_nonnil p) as Hnn.
    pose proof (NilEmpty.usu (Pos.to_uint p)) as Hus.
    cbn [Z.to_int NilZero.string_of_int]. unfold NilZero.string_of_uint.
    destruct (Pos.to_uint p) as [|d|d|d|d|d|d|d|d|d|d]; [congruence|..];
      unfold strconv.ParseInt; cbn [NilEmpty.string_of_uint] in Hus |- *;
      rewrite Hus, Hof;
      (destruct (Z.leb_spec (Z.pos p) (2 ^ 63)); [reflexivity|lia]).
Qed.

(** ** The reading endpoints *)

Lemma reads_only_refl w : reads_only w w.
Proof. unfold reads_only. repeat split. exists []. now rewrite app_nil_r. Qed.

Lemma reads_only_trans w1 w2 w3 :
  reads_only w1 w2 -> reads_only w2 w3 -> reads_only w1 w3.
Proof.
  intros (Ha & Hb & Hc & Hd & He & e1 & H1 & Hf)
    (Ha' & Hb' & Hc' & Hd' & He' & e2 & H2 & Hf').
  unfold reads_only. do 5 (split; [congruence|]).
  exists (e1 ++ e2). rewrite H2, H1, <- app_assoc. split; [reflexivity|].
  rewrite forallb_app, Hf, Hf'. reflexivity.
Qed.

Lemma reading_ret {A : Type} (a : A) : keeps reads_only (ret a).
Proof. intros w. apply reads_only_refl. Qed.

Lemma reading_get {A : Type} (proj : World -> A) : keeps reads_only (get proj).
Proof. intros w. apply reads_only_refl. Qed.

Lemma reading_bind {A B : Type} (m : M A) (k : A -> M B) :
  keeps reads_only m -> (forall a, keeps reads_only (k a)) -> keeps reads_only (bind m k).
Proof.
  intros Hm Hk w. unfold bind. specialize (Hm w).
  destruct (m w) as [a w1]. eapply reads_only_trans; [exact Hm|apply Hk].
Qed.

Lemma reading_emit e : is_reading e = true -> keeps reads_only (emit e).
Proof.
  intros He w. unfold emit, reads_only. cbn [snd media media_fts files sent tick trace].
  repeat split. exists [e]. simpl. now rewrite He.
Qed.

Ltac reads_with tac :=
  repeat first
    [ tac
    | apply reading_ret | apply reading_get | apply reading_emit; reflexivity
    | apply reading_bind; [|intros]
    | match goal with
      | |- keeps _ (match ?x with _ => _ end) => destruct x
      | |- keeps _ (if ?x then _ else _) => destruct x
      end ].

Section PagesMore.

Variable E : Env.

Lemma reading_getMedia query : keeps reads_only (getMedia E query).
Proof. unfold getMedia, DB_Query_media, DB_Query_rowids, log_Printf. reads_with fail. Qed.

(** The three endpoints that read, and [getMedia] under them, change
    neither table, nor the disk, nor the queue: all they do is log and
    query. *)
Theorem reading_endpoints_change_nothing w :
  reads_only w (snd (indexHandler E w)) /\
  (forall q, reads_only w (snd (searchHandler E q w))) /\
  (forall idStr HX_Request,
     reads_only w (snd (getMediaStatusHandler E idStr HX_Request w))) /\
  (forall query, reads_only w (snd (getMedia E query w))).
Proof.
  split; [|split; [|split]]; intros; revert w.
  - change (keeps reads_only (indexHandler E)).
    unfold indexHandler. reads_with ltac:(apply reading_getMedia).
  - change (keeps reads_only (searchHandler E q)).
    unfold searchHandler, log_Printf. reads_with ltac:(apply reading_getMedia).
  - change (keeps reads_only (getMediaStatusHandler E idStr HX_Request)).
    unfold getMediaStatusHandler, DB_QueryRow_media. reads_with fail.
  - apply reading_getMedia.
Qed.

(** The status endpoint: 400 when the id does not parse; 404 when no
    record has the id, and also when the query fails (an error of the
    database is not told apart from a missing record); otherwise 200
    with the record, as the grid fragment for an HTMX request and as
    JSON with the status, the thumbnail and the text (empty while NULL)
    for any other. *)
Theorem status_endpoint_answers idStr HX_Request w :
  fst (getMediaStatusHandler E idStr HX_Request w) =
  match strconv.ParseInt idStr with
  | None => c_Error StatusBadRequest [("error", "Invalid id")]
  | Some id =>
      match DB_Query_err E (SelectMediaById id), media w !! id with
      | None, Some r =>
          if String.eqb HX_Request "true" then c_HTML StatusOK "grid" [r]
          else c_Status StatusOK (ID r) (ProcessingStatus r)
                 (default "" (Thumb r)) (default "" (OcrText r))
      | _, _ => c_Error StatusNotFound [("error", "Media not found")]
      end
  end.
Proof.
  unfold getMediaStatusHandler, DB_QueryRow_media, bind, emit, get, ret.
  destruct (strconv.ParseInt idStr) as [id|]; [|reflexivity]. simpl.
  destruct (DB_Query_err E (SelectMediaById id)); simpl; [reflexivity|].
  destruct (media w !! id) as [r|]; simpl; [|reflexivity].
  destruct (String.eqb HX_Request "true"); reflexivity.
Qed.

(** The defect of [getMedia] seen from the search endpoint: when the
    MATCH finds ids and the second query fails, the error is assigned to
    a shadowed variable, [rows] stays nil and the handler panics; the
    client gets the bare 500 of gin's recovery, not the JSON error of the
    other failures. *)
Theorem search_panics_when_second_query_fails query w err :
  query <> "" ->
  DB_Query_err E (SelectFtsMatch query) = None ->
  sql.select_rowids (MATCH E query) (media_fts w) <> [] ->
  DB_Query_err E (SelectMediaIn (sql.select_rowids (MATCH E query) (media_fts w)))
    = Some err ->
  fst (getMedia E query w) = Panicked /\
  fst (searchHandler E query w) = c_Recovered StatusInternalServerError /\
  reads_only w (snd (searchHandler E query w)).
Proof.
  intros Hq Hfts Hids Herr.
  assert (Hg : fst (getMedia E query w) = Panicked).
  { unfold getMedia. apply String.eqb_neq in Hq. rewrite Hq.
    unfold DB_Query_media, DB_Query_rowids, log_Printf, bind, emit, get, ret.
    cbn [fst snd media media_fts]. rewrite Hfts. cbn [fst snd media media_fts].
    destruct (sql.select_rowids (MATCH E query) (media_fts w)) as [|i ids];
      [congruence|].
    cbn [length Nat.eqb]. rewrite Herr. reflexivity. }
  split; [exact Hg|]. split.
  - unfold searchHandler, log_Printf. unfold bind at 1 2. cbn [emit].
    match goal with |- context [getMedia E query ?w0] =>
      assert (Hg' : fst (getMedia E query w0) = Panicked)
    end.
    { unfold getMedia. apply String.eqb_neq in Hq. rewrite Hq.
      unfold DB_Query_media, DB_Query_rowids, log_Printf, bind, emit, get, ret.
      cbn [fst snd media media_fts]. rewrite Hfts. cbn [fst snd media media_fts].
      destruct (sql.select_rowids (MATCH E query) (media_fts w)) as [|i ids];
        [congruence|].
      cbn [length Nat.eqb]. rewrite Herr. reflexivity. }
    match goal with |- context [getMedia E query ?w0] =>
      destruct (getMedia E query w0) as [r w1]
    end.
    cbn [fst] in Hg'. subst r. reflexivity.
  - revert w Hids Herr Hg. intros w _ _ _. revert w.
    change (keeps reads_only (searchHandler E query)).
    unfold searchHandler, log_Printf. reads_with ltac:(apply reading_getMedia).
Qed.

(** The index page and the search with an empty query show every record,
    newest first. *)
Theorem index_page_lists_all_records w :
  DB_Query_err E SelectAllMedia = None ->
  exists rows,
    fst (indexHandler E w) = c_HTML StatusOK "index.html" rows /\
    fst (searchHandler E "" w) = c_HTML StatusOK "grid" rows /\
    rows ≡ₚ sql.rows_of (media w) /\
    StronglySorted sql.created_desc rows.
Proof.
  intros Hdb. exists (sql.select_media SelectAllMedia (media w)).
  unfold indexHandler, searchHandler, getMedia, DB_Query_media, log_Printf.
  unfold bind, emit, get, ret. cbn [String.eqb fst snd media]. rewrite Hdb.
  cbn [fst snd media].
  split; [reflexivity|]. split; [reflexivity|].
  split; [apply merge_sort_Permutation|].
  apply StronglySorted_merge_sort; apply _.
Qed.

(** A job and then the status endpoint: once an image job has reached
    the OCR step and the database has taken its UPDATE, the endpoint
    asked for the job's id answers [completed] with the thumbnail path
    and the text of the job. *)
Theorem status_after_image_job idStr id path w src r :
  strconv.ParseInt idStr = Some id ->
  reaches_ocr E id path w src ->
  media w !! id = Some r ->
  DB_Exec_err E (record_update E id path w src) = None ->
  DB_Query_err E (SelectMediaById id) = None ->
  let w' := snd (processImage E id path w) in
  let text := ocr_text_of E (<[thumbPath id := jpeg E (thumbnail src)]> (files w)) path in
  fst (getMediaStatusHandler E idStr "" w') =
    c_Status StatusOK (ID r) "completed" (thumbPath id) text.
Proof.
  intros Hid Hr Hrec Hex Hq. cbv zeta.
  destruct (processImage_saved E id path w src Hr) as (_ & _ & Hm & _).
  rewrite Hex in Hm.
  unfold getMediaStatusHandler, DB_QueryRow_media, bind, emit, get, ret.
  rewrite Hid. cbn [fst snd media]. rewrite Hq. cbn [fst snd media sql.select_media].
  rewrite Hm, lookup_alter_eq, Hrec. reflexivity.
Qed.

End PagesMore.

(** ** The further properties at sample inputs *)

Lemma refused_upload_witness :
  let c := Samples.upload "big.mp4" Samples.oversized "cats" in
  refused_request Samples.env c /\
  exists h, uploadHandler Samples.env c Samples.empty =
            (c_JSON StatusBadRequest h, Samples.empty).
Proof.
  cbv zeta.
  assert (Hr : refused_request Samples.env (Samples.upload "big.mp4" Samples.oversized "cats")).
  { right. eexists. vm_compute. reflexivity. }
  split; [exact Hr|].
  exact (refused_upload_changes_nothing Samples.env _ Samples.empty Hr).
Defined.

Lemma tag_update_changes_only_tags_witness :
  let w := Samples.after_upload Samples.env "cat.png" Samples.picture "cats" in
  let out := updateTagsHandler Samples.env "1" "dogs" w in
  strconv.ParseInt "1" = Some 1 /\
  is_Some (media w !! 1) /\
  fst out = c_String StatusOK "dogs" /\
  (Tags <$> media (snd out) !! 1) = Some "dogs" /\
  files (snd out) = files w /\ sent (snd out) = sent w.
Proof.
  cbv zeta.
  set (w := Samples.after_upload Samples.env "cat.png" Samples.picture "cats").
  assert (Hrec : is_Some (media w !! 1)) by (vm_compute; eauto).
  split; [reflexivity|]. split; [exact Hrec|].
  destruct Hrec as [r Hrec].
  destruct (tag_update_changes_only_tags Samples.env "1" 1 "dogs" w r
              eq_refl Hrec eq_refl eq_refl)
    as (Hout & (r' & Hlk & Htags & _) & _ & _ & _ & Hfiles & Hsent).
  split; [exact Hout|]. split; [|split; [exact Hfiles|exact Hsent]].
  rewrite Hlk. cbn [fmap option_fmap option_map]. now rewrite Htags.
Defined.

Lemma tag_update_with_index_refusing_witness :
  let E := Samples.env_index_refusing in
  let w := Samples.after_upload Samples.env "cat.png" Samples.picture "cats" in
  let out := updateTagsHandler E "1" "dogs" w in
  DB_Exec_err E (UpdateFtsTags "dogs" 1) = Some "database is locked" /\
  fst out = c_String StatusOK "dogs" /\
  media (snd out) = alter (sql.set_Tags "dogs") 1 (media w) /\
  media_fts (snd out) = media_fts w.
Proof.
  cbv zeta. split; [reflexivity|].
  destruct (tag_update_with_index_refusing Samples.env_index_refusing "1" 1 "dogs"
              (Samples.after_upload Samples.env "cat.png" Samples.picture "cats")
              "database is locked" eq_refl eq_refl eq_refl)
    as (Hout & Hm & Hf & _).
  exact (conj Hout (conj Hm Hf)).
Defined.

Lemma tag_update_refused_witness :
  let E := Samples.env_tags_refused in
  let w := Samples.after_upload Samples.env "cat.png" Samples.picture "cats" in
  let out := updateTagsHandler E "1" "dogs" w in
  DB_Exec_err E (UpdateMediaTags "dogs" 1) = Some "database is locked" /\
  fst out = c_JSON StatusInternalServerError [("error", "database is locked")] /\
  media (snd out) = media w /\ media_fts (snd out) = media_fts w.
Proof.
  cbv zeta. split; [reflexivity|].
  destruct (tag_update_refused Samples.env_tags_refused "1" 1 "dogs"
              (Samples.after_upload Samples.env "cat.png" Samples.picture "cats")
              "database is locked" eq_refl eq_refl)
    as (Hout & Hm & Hf & _).
  exact (conj Hout (conj Hm Hf)).
Defined.

Lemma video_results_witness :
  let E := Samples.env in
  let w := Samples.after_upload E "cat.mp4" Samples.clip "cats" in
  let w' := snd (processMedia E 1 "storage/f0.mp4" "video/mp4" w) in
  ffmpeg E (files w) "storage/f0.mp4" (framePath 1) = (None, Some Samples.frame) /\
  is_Some (media w !! 1) /\
  files w' !! thumbPath 1 = Some (jpeg E (thumbnail (Samples.decoded 640 360))) /\
  files w' !! framePath 1 = None /\
  (forall k, k <> 1 -> media w' !! k = media w !! k).
Proof.
  cbv zeta.
  set (w := Samples.after_upload Samples.env "cat.mp4" Samples.clip "cats").
  assert (Hff : ffmpeg Samples.env (files w) "storage/f0.mp4" (framePath 1) =
                (None, Some Samples.frame)) by (vm_compute; reflexivity).
  assert (Hrec : is_Some (media w !! 1)) by (vm_compute; eauto).
  split; [exact Hff|]. split; [exact Hrec|].
  destruct Hrec as [r Hrec].
  destruct (video_results_under_video_id Samples.env 1 "storage/f0.mp4" "video/mp4" w
              Samples.frame (Samples.decoded 640 360) r
              eq_refl Hff eq_refl eq_refl Hrec eq_refl)
    as (_ & _ & Hothers & Hthumb & Hgone).
  split; [exact Hthumb|]. split; [exact (Hgone eq_refl)|exact Hothers].
Defined.


Lemma served_as_uploadHandler_witness :
  let E := Samples.env in
  let c := Samples.burst 3 in
  let s := jobQueue.init Samples.empty in
  let s' := foldl (jobQueue.step E) s
              (jobQueue.Request c :: replicate 4 (jobQueue.Advance 0)) in
  let out := uploadHandler E c Samples.empty in
  jobQueue.world s' = snd out /\
  jobQueue.handlers s' !! 0%nat = Some (jobQueue.Answered (fst out)) /\
  jobQueue.buf (jobQueue.chan s') = sent (snd out).
Proof.
  cbv zeta.
  assert (Hroom : (length (jobQueue.buf (jobQueue.chan (jobQueue.init Samples.empty))) +
                   match MultipartForm (Samples.burst 3) with
                   | inl fhs => length fhs
                   | inr _ => 0%nat
                   end <= jobQueue.capacity)%nat)
    by (vm_compute; lia).
  destruct (served_as_uploadHandler Samples.env (Samples.burst 3)
              (jobQueue.init Samples.empty) Hroom)
    as (Hw & Hh & _ & jobs & Hsent & Hbuf).
  split; [exact Hw|]. split; [exact Hh|].
  change (jobQueue.buf (jobQueue.chan (jobQueue.init Samples.empty)))
    with (@nil ProcessingJob) in Hbuf.
  change (jobQueue.world (jobQueue.init Samples.empty)) with Samples.empty in Hsent.
  change (sent Samples.empty) with (@nil ProcessingJob) in Hsent.
  cbn [app] in Hbuf, Hsent. rewrite Hsent. exact Hbuf.
Defined.

Lemma ParseInt_FormatInt_witness :
  - 2 ^ 63 <= 759303819177684512 < 2 ^ 63 /\
  strconv.ParseInt (strconv.FormatInt 759303819177684512) = Some 759303819177684512 /\
  strconv.ParseInt (strconv.FormatInt (- 2 ^ 63)) = Some (- 2 ^ 63).
Proof.
  assert (H1 : - 2 ^ 63 <= 759303819177684512 < 2 ^ 63)
    by (split; [vm_compute; discriminate|reflexivity]).
  assert (H2 : - 2 ^ 63 <= - 2 ^ 63 < 2 ^ 63)
    by (split; [vm_compute; discriminate|reflexivity]).
  split; [exact H1|].
  split; [exact (ParseInt_FormatInt _ H1)|exact (ParseInt_FormatInt _ H2)].
Defined.

Lemma search_panics_witness :
  let E := Samples.env_second_query_fails in
  let w := Samples.after_job Samples.env "cat.png" Samples.picture "cats" in
  sql.select_rowids (MATCH E "cats") (media_fts w) = [1] /\
  fst (getMedia E "cats" w) = Panicked /\
  fst (searchHandler E "cats" w) = c_Recovered StatusInternalServerError.
Proof.
  cbv zeta.
  set (w := Samples.after_job Samples.env "cat.png" Samples.picture "cats").
  assert (Hids : sql.select_rowids (MATCH Samples.env_second_query_fails "cats")
                   (media_fts w) = [1]) by (vm_compute; reflexivity).
  assert (Hq : "cats" <> "") by discriminate.
  assert (Hne : sql.select_rowids (MATCH Samples.env_second_query_fails "cats")
                  (media_fts w) <> []) by (rewrite Hids; discriminate).
  destruct (search_panics_when_second_query_fails Samples.env_second_query_fails
              "cats" w "too many SQL variables" Hq eq_refl Hne eq_refl)
    as (Hg & Hs & _).
  exact (conj Hids (conj Hg Hs)).
Defined.

Lemma index_page_witness :
  let E := Samples.env in
  let w := Samples.after_job E "cat.png" Samples.picture "cats" in
  exists rows,
    fst (indexHandler E w) = c_HTML StatusOK "index.html" rows /\
    rows ≡ₚ sql.rows_of (media w) /\
    StronglySorted sql.created_desc rows.
Proof.
  cbv zeta.
  destruct (index_page_lists_all_records Samples.env
              (Samples.after_job Samples.env "cat.png" Samples.picture "cats") eq_refl)
    as (rows & Hi & _ & Hp & Hs).
  exists rows. exact (conj Hi (conj Hp Hs)).
Defined.

Lemma status_after_image_job_witness :
  let E := Samples.env in
  let w := Samples.after_upload E "cat.png" Samples.picture "cats" in
  let w' := snd (processImage E 1 "storage/f0.png" w) in
  reaches_ocr E 1 "storage/f0.png" w (Samples.decoded 300 200) /\
  exists r, media w !! 1 = Some r /\
    fst (getMediaStatusHandler E "1" "" w') =
      c_Status StatusOK (ID r) "completed" (thumbPath 1) "hello world".
Proof.
  cbv zeta.
  set (E := Samples.env).
  set (w := Samples.after_upload E "cat.png" Samples.picture "cats").
  assert (Hr : reaches_ocr E 1 "storage/f0.png" w (Samples.decoded 300 200))
    by (split; vm_compute; reflexivity).
  assert (Hrec : exists r, media w !! 1 = Some r) by (vm_compute; eauto).
  assert (Ht : ocr_text_of E
                 (<[thumbPath 1 := jpeg E (thumbnail (Samples.decoded 300 200))]> (files w))
                 "storage/f0.png" = "hello world") by (vm_compute; reflexivity).
  split; [exact Hr|]. destruct Hrec as [r Hrec]. exists r. split; [exact Hrec|].
  pose proof (status_after_image_job E "1" 1 "storage/f0.png" w (Samples.decoded 300 200) r
                eq_refl Hr Hrec eq_refl eq_refl) as H.
  cbv zeta in H. rewrite Ht in H. exact H.
Defined.

Lemma processMedia_other_witness :
  let w := Samples.after_upload Samples.env "cat.png" Samples.picture "cats" in
  let w' := snd (processMedia Samples.env 1 "storage/f0.png" "application/pdf" w) in
  strings.HasPrefix "application/pdf" "image/" = false /\
  strings.HasPrefix "application/pdf" "video/" = false /\
  media w' = media w /\ files w' = files w /\
  last (trace w') = Some (EvLog "Completed media processing for ID %d" [AInt 1]).
Proof.
  cbv zeta. split; [reflexivity|]. split; [reflexivity|].
  generalize (Samples.after_upload Samples.env "cat.png" Samples.picture "cats").
  intros w.
  rewrite (processMedia_other Samples.env 1 "storage/f0.png" "application/pdf" w
             eq_refl eq_refl).
  cbn [snd media files trace]. split; [reflexivity|]. split; [reflexivity|].
  rewrite last_app. reflexivity.
Defined.
